(** * Tablet schema descriptors of the storage engine

    A shallow embedding of [be/src/storage/tablet_schema.h]: the column
    descriptor [TabletColumn] with its packed flag byte and its optional
    [ExtraFields] block, and the schema descriptor [TabletSchema] with its
    sort-key list, its set view and its unique-id index.

    Integers are modelled as [Z] with the truncation of the C++ member
    type written out; vector ordinals ([ColumnId], [size_t] indexes) are
    [nat], since the header performs no arithmetic on them.  A [std::string]
    is its content together with the capacity of its buffer, because
    [mem_usage] reads the capacity. *)

From Stdlib Require Import ZArith String Ascii Bool List.
From stdpp Require Import base option list gmap.

Local Open Scope Z_scope.

(** ** What the header takes from the C++ implementation *)

(** The header computes with [sizeof] of its two classes and with
    [std::string::capacity]; these are fixed by the compiler and the
    standard library, not by the header.  [string_capacity n] is the
    capacity of a [std::string] freshly built from [n] characters; the
    C++ standard only promises that it is at least [n].
    [string_move_capacity dest_capacity src_capacity src_size] is the
    capacity of a string after the move assignment [dest = std::move(src)]:
    the standard leaves open whether the destination takes over the
    source's buffer or keeps its own. *)
Class Platform : Type := {
  sizeof_TabletColumn : Z;
  sizeof_TabletSchema : Z;
  string_capacity : nat -> Z;
  string_move_capacity : Z -> Z -> nat -> Z;
}.

(** GCC's libstdc++ on an LP64 target: a [std::string] keeps 15 characters
    in place, so that is the capacity of every short string, the empty one
    included.  Its move assignment copies a source that lives in place
    (capacity 15) into the destination's own buffer, whose capacity stays;
    from a heap-backed source the destination takes over the buffer.  The
    two object sizes are those of one build; no statement below depends on
    their values. *)
Definition libstdcxx_lp64 : Platform := {|
  sizeof_TabletColumn := 40;
  sizeof_TabletSchema := 240;
  string_capacity := fun n => Z.max 15 (Z.of_nat n);
  string_move_capacity := fun dest_capacity src_capacity _ =>
    if src_capacity <=? 15 then dest_capacity else src_capacity;
|}.

(** ** Strings *)

Record std_string : Type := mk_std_string {
  str_data : string;
  str_capacity : Z;
}.

(** A [std::string] built from the characters of [s]. *)
Definition make_std_string `{Platform} (s : string) : std_string :=
  {| str_data := s; str_capacity := string_capacity (String.length s) |}.

(** ** Fixed-width integers *)

Definition to_uint8 (z : Z) : Z := z mod 2 ^ 8.
Definition to_uint16 (z : Z) : Z := z mod 2 ^ 16.
Definition to_uint64 (z : Z) : Z := z mod 2 ^ 64.
Definition to_int32 (z : Z) : Z := (z + 2 ^ 31) mod 2 ^ 32 - 2 ^ 31.

(** ** Column descriptor *)

Abbreviation ColumnUID := Z (only parsing).
Abbreviation ColumnLength := Z (only parsing).
Abbreviation ColumnIndexLength := Z (only parsing).
Abbreviation ColumnPrecision := Z (only parsing).
Abbreviation ColumnScale := Z (only parsing).
Abbreviation ColumnId := nat (only parsing).
(** [LogicalType] and [StorageAggregateType] are enumerations of other
    headers; a value is its underlying integer.  The type names are
    abbreviations, so that the library lemmas on [Z] and [nat] apply. *)
Abbreviation LogicalType := Z (only parsing).
Abbreviation StorageAggregateType := Z (only parsing).

Inductive TabletColumn : Type := mkTabletColumn {
  _col_name : string;
  _unique_id : ColumnUID;
  _length : ColumnLength;
  _aggregation : StorageAggregateType;
  _type : LogicalType;
  _index_length : ColumnIndexLength;
  _precision : ColumnPrecision;
  _scale : ColumnScale;
  _flags : Z;
  _extra_fields : option ExtraFields;
}
with ExtraFields : Type := mkExtraFields {
  ef_default_value : std_string;
  ef_sub_columns : list TabletColumn;
  ef_has_default_value : bool;
}.

(** [new ExtraFields()]. *)
Definition new_ExtraFields `{Platform} : ExtraFields :=
  {| ef_default_value := make_std_string EmptyString;
     ef_sub_columns := [];
     ef_has_default_value := false |}.

Definition with_flags (f : Z) (c : TabletColumn) : TabletColumn :=
  mkTabletColumn (_col_name c) (_unique_id c) (_length c) (_aggregation c)
    (_type c) (_index_length c) (_precision c) (_scale c) f (_extra_fields c).

Definition with_precision (p : Z) (c : TabletColumn) : TabletColumn :=
  mkTabletColumn (_col_name c) (_unique_id c) (_length c) (_aggregation c)
    (_type c) (_index_length c) p (_scale c) (_flags c) (_extra_fields c).

Definition with_scale (s : Z) (c : TabletColumn) : TabletColumn :=
  mkTabletColumn (_col_name c) (_unique_id c) (_length c) (_aggregation c)
    (_type c) (_index_length c) (_precision c) s (_flags c) (_extra_fields c).

Definition with_extra_fields (e : option ExtraFields) (c : TabletColumn) : TabletColumn :=
  mkTabletColumn (_col_name c) (_unique_id c) (_length c) (_aggregation c)
    (_type c) (_index_length c) (_precision c) (_scale c) (_flags c) e.

Definition unique_id (c : TabletColumn) : ColumnUID := _unique_id c.
Definition name (c : TabletColumn) : string := _col_name c.

(** *** The flag byte *)

Definition kIsKeyShift : Z := 0.
Definition kIsNullableShift : Z := 1.
Definition kIsBfColumnShift : Z := 2.
Definition kHasBitmapIndexShift : Z := 3.
Definition kHasPrecisionShift : Z := 4.
Definition kHasScaleShift : Z := 5.
Definition kHasAutoIncrementShift : Z := 6.
Definition kIsSortKey : Z := 7.

(** [_flags |= (1 << pos)] and [_flags &= ~(1 << pos)]: the operands are
    promoted to [int], the result is stored back into the [uint8_t]. *)
Definition _set_flag (pos : Z) (value : bool) (c : TabletColumn) : TabletColumn :=
  if value
  then with_flags (to_uint8 (Z.lor (_flags c) (Z.shiftl 1 pos))) c
  else with_flags (to_uint8 (Z.land (_flags c) (Z.lnot (Z.shiftl 1 pos)))) c.

(** [return _flags & (1 << pos)], converted to [bool]. *)
Definition _check_flag (pos : Z) (c : TabletColumn) : bool :=
  negb (Z.land (_flags c) (Z.shiftl 1 pos) =? 0).

Definition is_key := _check_flag kIsKeyShift.
Definition set_is_key := _set_flag kIsKeyShift.
Definition is_nullable := _check_flag kIsNullableShift.
Definition set_is_nullable := _set_flag kIsNullableShift.
Definition is_auto_increment := _check_flag kHasAutoIncrementShift.
Definition set_is_auto_increment := _set_flag kHasAutoIncrementShift.
Definition is_bf_column := _check_flag kIsBfColumnShift.
Definition set_is_bf_column := _set_flag kIsBfColumnShift.
Definition has_bitmap_index := _check_flag kHasBitmapIndexShift.
Definition set_has_bitmap_index := _set_flag kHasBitmapIndexShift.
Definition is_sort_key := _check_flag kIsSortKey.
Definition set_is_sort_key := _set_flag kIsSortKey.

Definition has_precision := _check_flag kHasPrecisionShift.
Definition precision (c : TabletColumn) : ColumnPrecision := _precision c.
Definition set_precision (p : ColumnPrecision) (c : TabletColumn) : TabletColumn :=
  _set_flag kHasPrecisionShift true (with_precision (to_uint8 p) c).

Definition has_scale := _check_flag kHasScaleShift.
Definition scale (c : TabletColumn) : ColumnScale := _scale c.
Definition set_scale (s : ColumnScale) (c : TabletColumn) : TabletColumn :=
  _set_flag kHasScaleShift true (with_scale (to_uint8 s) c).

(** The eight named flags and the eight mutators that write them. *)
Inductive Flag : Type :=
  | IsKey | IsNullable | IsBfColumn | HasBitmapIndex
  | HasPrecision | HasScale | IsAutoIncrement | IsSortKey.

#[global] Instance Flag_eq_dec : EqDecision Flag.
Proof. solve_decision. Defined.

Definition flag_accessor (f : Flag) : TabletColumn -> bool :=
  match f with
  | IsKey => is_key
  | IsNullable => is_nullable
  | IsBfColumn => is_bf_column
  | HasBitmapIndex => has_bitmap_index
  | HasPrecision => has_precision
  | HasScale => has_scale
  | IsAutoIncrement => is_auto_increment
  | IsSortKey => is_sort_key
  end.

Inductive FlagMutation : Type :=
  | SetIsKey (v : bool)
  | SetIsNullable (v : bool)
  | SetIsBfColumn (v : bool)
  | SetHasBitmapIndex (v : bool)
  | SetIsAutoIncrement (v : bool)
  | SetIsSortKey (v : bool)
  | SetPrecision (p : ColumnPrecision)
  | SetScale (s : ColumnScale).

Definition run_mutation (m : FlagMutation) : TabletColumn -> TabletColumn :=
  match m with
  | SetIsKey v => set_is_key v
  | SetIsNullable v => set_is_nullable v
  | SetIsBfColumn v => set_is_bf_column v
  | SetHasBitmapIndex v => set_has_bitmap_index v
  | SetIsAutoIncrement v => set_is_auto_increment v
  | SetIsSortKey v => set_is_sort_key v
  | SetPrecision p => set_precision p
  | SetScale s => set_scale s
  end.

Definition written_flag (m : FlagMutation) : Flag :=
  match m with
  | SetIsKey _ => IsKey
  | SetIsNullable _ => IsNullable
  | SetIsBfColumn _ => IsBfColumn
  | SetHasBitmapIndex _ => HasBitmapIndex
  | SetIsAutoIncrement _ => IsAutoIncrement
  | SetIsSortKey _ => IsSortKey
  | SetPrecision _ => HasPrecision
  | SetScale _ => HasScale
  end.

Definition written_value (m : FlagMutation) : bool :=
  match m with
  | SetIsKey v | SetIsNullable v | SetIsBfColumn v | SetHasBitmapIndex v
  | SetIsAutoIncrement v | SetIsSortKey v => v
  | SetPrecision _ | SetScale _ => true
  end.

(** *** The extended attributes *)

(** [inline static const std::string kEmptyDefaultValue]. *)
Definition kEmptyDefaultValue `{Platform} : std_string := make_std_string EmptyString.

Definition _get_or_alloc_extra_fields `{Platform} (c : TabletColumn) : ExtraFields :=
  match _extra_fields c with
  | None => new_ExtraFields
  | Some e => e
  end.

Definition has_default_value (c : TabletColumn) : bool :=
  match _extra_fields c with
  | None => false
  | Some e => ef_has_default_value e
  end.

Definition default_value `{Platform} (c : TabletColumn) : std_string :=
  match _extra_fields c with
  | Some e => ef_default_value e
  | None => kEmptyDefaultValue
  end.

(** [dest = std::move(src)]: the destination holds the source's
    characters; its capacity is the standard library's choice. *)
Definition move_assign `{Platform} (dest src : std_string) : std_string :=
  {| str_data := str_data src;
     str_capacity :=
       string_move_capacity (str_capacity dest) (str_capacity src)
         (String.length (str_data src)) |}.

Definition set_default_value `{Platform} (value : std_string) (c : TabletColumn) : TabletColumn :=
  let ext := _get_or_alloc_extra_fields c in
  with_extra_fields
    (Some (mkExtraFields (move_assign (ef_default_value ext) value) (ef_sub_columns ext) true))
    c.

Definition subcolumn_count (c : TabletColumn) : nat :=
  match _extra_fields c with
  | Some e => length (ef_sub_columns e)
  | None => 0%nat
  end.

(** [subcolumn(i)] reads [_extra_fields->sub_columns[i]] with no check.
    The two ways this access can leave the language's defined behaviour
    are kept apart. *)
Inductive access (A : Type) : Type :=
  | Value (a : A)
  | NullDereference
  | OutOfRange.
Arguments Value {A} a.
Arguments NullDereference {A}.
Arguments OutOfRange {A}.

Definition subcolumn (i : nat) (c : TabletColumn) : access TabletColumn :=
  match _extra_fields c with
  | None => NullDereference
  | Some e =>
      match ef_sub_columns e !! i with
      | Some sc => Value sc
      | None => OutOfRange
      end
  end.

(** *** Memory accounting *)

(** The sizes added here are those of live objects, far below [2^63];
    the [int64_t] sums are therefore taken in [Z]. *)
Fixpoint column_mem_usage `{Platform} (c : TabletColumn) : Z :=
  let own :=
    sizeof_TabletColumn + Z.of_nat (String.length (_col_name c))
    + str_capacity (default_value c) in
  match _extra_fields c with
  | None => own
  | Some e => fold_left (fun acc sc => acc + column_mem_usage sc) (ef_sub_columns e) own
  end.

(** The sum of a list of sizes, and the sub-column sequence a column's
    [mem_usage] loop walks (empty without an extended block). *)
Definition Zsum (l : list Z) : Z := fold_right Z.add 0 l.

Definition subcolumns (c : TabletColumn) : list TabletColumn :=
  match _extra_fields c with
  | Some e => ef_sub_columns e
  | None => []
  end.

(** ** Schema descriptor *)

(** The members of [TabletSchema] that describe content.  The interning
    back-pointer [_schema_map] and the lazily built [_schema] with its
    once-flag carry no content and are left out. *)
Record TabletSchema : Type := mkTabletSchema {
  _id : Z;
  _bf_fpp : Z;  (* the 64 bits of the [double]; the header never computes with it *)
  _cols : list TabletColumn;
  _num_rows_per_row_block : Z;
  _next_column_unique_id : Z;
  _num_columns : Z;
  _num_key_columns : Z;
  _num_short_key_columns : Z;
  _sort_key_idxes : list ColumnId;
  _sort_key_idxes_set : gset ColumnId;
  _keys_type : Z;
  _compression_type : Z;
  _field_id_to_index : gmap Z Z;
  _has_bf_fpp : bool;
  _schema_version : Z;
}.

Definition invalid_id : Z := 0.

Definition with_cols_and_sort_keys
    (cols : list TabletColumn) (idxes : list ColumnId) (s : TabletSchema) : TabletSchema :=
  mkTabletSchema (_id s) (_bf_fpp s) cols (_num_rows_per_row_block s)
    (_next_column_unique_id s) (_num_columns s) (_num_key_columns s)
    (_num_short_key_columns s) idxes (_sort_key_idxes_set s) (_keys_type s)
    (_compression_type s) (_field_id_to_index s) (_has_bf_fpp s) (_schema_version s).

Definition with_num_short_key_columns (n : Z) (s : TabletSchema) : TabletSchema :=
  mkTabletSchema (_id s) (_bf_fpp s) (_cols s) (_num_rows_per_row_block s)
    (_next_column_unique_id s) (_num_columns s) (_num_key_columns s)
    n (_sort_key_idxes s) (_sort_key_idxes_set s) (_keys_type s)
    (_compression_type s) (_field_id_to_index s) (_has_bf_fpp s) (_schema_version s).

Definition schema_id (s : TabletSchema) : Z := _id s.
Definition sort_key_idxes (s : TabletSchema) : list ColumnId := _sort_key_idxes s.
Definition num_columns (s : TabletSchema) : nat := length (_cols s).
Definition num_key_columns (s : TabletSchema) : Z := _num_key_columns s.
Definition num_short_key_columns (s : TabletSchema) : Z := _num_short_key_columns s.
Definition num_rows_per_row_block (s : TabletSchema) : Z := _num_rows_per_row_block s.
Definition keys_type (s : TabletSchema) : Z := _keys_type s.
Definition next_column_unique_id (s : TabletSchema) : Z := _next_column_unique_id s.
Definition has_bf_fpp (s : TabletSchema) : bool := _has_bf_fpp s.
Definition bf_fpp (s : TabletSchema) : Z := _bf_fpp s.
Definition compression_type (s : TabletSchema) : Z := _compression_type s.
Definition schema_version (s : TabletSchema) : Z := _schema_version s.

(** One loop of [set_sort_key_idxes]:
    [for (auto idx : idxes) _cols[idx].set_is_sort_key(v)].
    [_cols[idx]] is unchecked; an ordinal outside the vector leaves defined
    behaviour, which is [None] here. *)
Fixpoint mark_sort_keys (v : bool) (idxes : list ColumnId) (cols : list TabletColumn)
    : option (list TabletColumn) :=
  match idxes with
  | [] => Some cols
  | idx :: rest =>
      match cols !! idx with
      | None => None
      | Some c => mark_sort_keys v rest (<[idx := set_is_sort_key v c]> cols)
      end
  end.

Definition set_sort_key_idxes (new_idxes : list ColumnId) (s : TabletSchema)
    : option TabletSchema :=
  match mark_sort_keys false (_sort_key_idxes s) (_cols s) with
  | None => None
  | Some cleared =>
      match mark_sort_keys true new_idxes cleared with
      | None => None
      | Some marked => Some (with_cols_and_sort_keys marked new_idxes s)
      end
  end.

Definition set_num_short_key_columns (n : Z) (s : TabletSchema) : TabletSchema :=
  with_num_short_key_columns (to_uint16 n) s.

Definition schema_mem_usage `{Platform} (s : TabletSchema) : Z :=
  fold_left (fun acc col => acc + column_mem_usage col) (_cols s) sizeof_TabletSchema.

(** ** Operations whose bodies are not in the header

    The header only declares the operations below; their bodies live in
    the implementation file.  Each is modelled from the specification's
    description, on the data model above. *)

(** Modelled from the spec: the body of [TabletColumn::add_sub_column] is
    missing.  "Extended Attributes ... allocated on first write of any such
    attribute", holding the "ordered sequence of nested Column
    Descriptors": the block is allocated on demand and the sub-column is
    appended. *)
Definition add_sub_column `{Platform} (sub : TabletColumn) (c : TabletColumn) : TabletColumn :=
  let ext := _get_or_alloc_extra_fields c in
  with_extra_fields
    (Some (mkExtraFields (ef_default_value ext) (ef_sub_columns ext ++ [sub])
             (ef_has_default_value ext))) c.

(** Modelled from the spec: the declaration of [ColumnPB] is missing.  The
    fields are those of the "decoded column descriptor" of the external
    interfaces: optional fields are options, the nested descriptors a list. *)
Inductive ColumnPB : Type := mkColumnPB {
  pb_unique_id : Z;
  pb_name : string;
  pb_type : LogicalType;
  pb_is_key : bool;
  pb_is_nullable : bool;
  pb_aggregation : StorageAggregateType;
  pb_length : Z;
  pb_index_length : Z;
  pb_precision : option Z;
  pb_scale : option Z;
  pb_default_value : option string;
  pb_is_bf_column : bool;
  pb_has_bitmap_index : bool;
  pb_is_auto_increment : bool;
  pb_is_sort_key : bool;
  pb_children_columns : list ColumnPB;
}.

(** Modelled from the spec: the body of [TabletColumn::init_from_pb] is
    missing.  Every attribute of the decoded descriptor is stored through
    the header's own setters and member types; precision, scale and the
    default value are written only when the descriptor carries them, so
    the extended block is absent "unless a default value or sub-columns are
    supplied". *)
Fixpoint init_from_pb `{Platform} (pb : ColumnPB) : TabletColumn :=
  let c :=
    mkTabletColumn (pb_name pb) (to_int32 (pb_unique_id pb)) (to_int32 (pb_length pb))
      (pb_aggregation pb) (pb_type pb) (to_uint8 (pb_index_length pb)) 0 0 0 None in
  let c := set_is_key (pb_is_key pb) c in
  let c := set_is_nullable (pb_is_nullable pb) c in
  let c := set_is_bf_column (pb_is_bf_column pb) c in
  let c := set_has_bitmap_index (pb_has_bitmap_index pb) c in
  let c := set_is_auto_increment (pb_is_auto_increment pb) c in
  let c := set_is_sort_key (pb_is_sort_key pb) c in
  let c := match pb_precision pb with Some p => set_precision p c | None => c end in
  let c := match pb_scale pb with Some s => set_scale s c | None => c end in
  let c :=
    match pb_default_value pb with
    | Some v => set_default_value (make_std_string v) c
    | None => c
    end in
  fold_left (fun c child => add_sub_column (init_from_pb child) c) (pb_children_columns pb) c.

(** Modelled from the spec: the body of [TabletColumn::to_schema_pb] is
    missing.  The descriptor is re-encoded "losslessly with respect to
    every attribute enumerated" in the decoded column descriptor. *)
Fixpoint column_to_schema_pb `{Platform} (c : TabletColumn) : ColumnPB :=
  {| pb_unique_id := unique_id c;
     pb_name := name c;
     pb_type := _type c;
     pb_is_key := is_key c;
     pb_is_nullable := is_nullable c;
     pb_aggregation := _aggregation c;
     pb_length := _length c;
     pb_index_length := _index_length c;
     pb_precision := if has_precision c then Some (precision c) else None;
     pb_scale := if has_scale c then Some (scale c) else None;
     pb_default_value :=
       if has_default_value c then Some (str_data (default_value c)) else None;
     pb_is_bf_column := is_bf_column c;
     pb_has_bitmap_index := has_bitmap_index c;
     pb_is_auto_increment := is_auto_increment c;
     pb_is_sort_key := is_sort_key c;
     pb_children_columns :=
       match _extra_fields c with
       | None => []
       | Some e => map column_to_schema_pb (ef_sub_columns e)
       end |}.

Definition list_eqb {A : Type} (eqb : A -> A -> bool) : list A -> list A -> bool :=
  fix go (la lb : list A) : bool :=
    match la, lb with
    | [], [] => true
    | x :: la', y :: lb' => eqb x y && go la' lb'
    | _, _ => false
    end.

(** Modelled from the spec: the body of [operator==] on [TabletColumn] is
    missing.  "Two Column Descriptors are equal iff all scalar attributes,
    the flag byte, and (if present) the Extended Attributes (default value
    and recursively-equal sub-column sequence) are equal"; strings compare
    by content. *)
Fixpoint column_eqb (a b : TabletColumn) : bool :=
  String.eqb (_col_name a) (_col_name b)
  && (_unique_id a =? _unique_id b)
  && (_length a =? _length b)
  && (_aggregation a =? _aggregation b)
  && (_type a =? _type b)
  && (_index_length a =? _index_length b)
  && (_precision a =? _precision b)
  && (_scale a =? _scale b)
  && (_flags a =? _flags b)
  && match _extra_fields a, _extra_fields b with
     | None, None => true
     | Some ea, Some eb =>
         Bool.eqb (ef_has_default_value ea) (ef_has_default_value eb)
         && String.eqb (str_data (ef_default_value ea)) (str_data (ef_default_value eb))
         && list_eqb column_eqb (ef_sub_columns ea) (ef_sub_columns eb)
     | _, _ => false
     end.

(** Modelled from the spec: the declaration of [TabletSchemaPB] is
    missing.  The fields are those of the "decoded schema descriptor" of
    the external interfaces; a field with a default holds the value its
    accessor returns. *)
Record TabletSchemaPB : Type := mkTabletSchemaPB {
  spb_id : Z;
  spb_column : list ColumnPB;
  spb_keys_type : Z;
  spb_num_short_key_columns : Z;
  spb_num_rows_per_row_block : Z;
  spb_bf_fpp : option Z;
  spb_compression_type : Z;
  spb_next_column_unique_id : Z;
  spb_schema_version : Z;
}.

Definition to_uint32 (z : Z) : Z := z mod 2 ^ 32.
Definition to_int64 (z : Z) : Z := (z + 2 ^ 63) mod 2 ^ 64 - 2 ^ 63.

(** Modelled from the spec: part of the missing body of [_init_from_pb],
    which "builds the unique-id index, validates no duplicate unique ids
    (fails the decode if violated)".  [next] is the ordinal of the first
    column of [cols]. *)
Fixpoint build_field_id_to_index (cols : list TabletColumn) (next : nat) (m : gmap Z Z)
    : option (gmap Z Z) :=
  match cols with
  | [] => Some m
  | c :: rest =>
      match m !! unique_id c with
      | Some _ => None
      | None => build_field_id_to_index rest (S next) (<[unique_id c := Z.of_nat next]> m)
      end
  end.

(** Modelled from the spec: part of the missing body of [_init_from_pb].
    The decoded schema descriptor has no sort-key field of its own, and
    "is_sort_key() is true iff i appears in sort_key_idxes() for every
    schema produced by ... decode": the list holds the ordinals of the
    columns decoded with the flag, in column order. *)
Fixpoint flagged_sort_keys (cols : list TabletColumn) (next : nat) : list ColumnId :=
  match cols with
  | [] => []
  | c :: rest =>
      if is_sort_key c
      then next :: flagged_sort_keys rest (S next)
      else flagged_sort_keys rest (S next)
  end.

(** "derives num_key_columns (count of ... flagged key columns)". *)
Definition count_key_columns (cols : list TabletColumn) : Z :=
  to_uint16 (Z.of_nat (length (filter (fun c => is_key c = true) cols))).

(** Modelled from the spec: the body of [TabletSchema::_init_from_pb] is
    missing.  Decode "populates all columns, derives num_key_columns,
    builds the unique-id index" and fails on duplicate unique ids; scalar
    fields are stored in the header's member types. *)
Definition _init_from_pb `{Platform} (schema : TabletSchemaPB) : option TabletSchema :=
  let cols := map init_from_pb (spb_column schema) in
  match build_field_id_to_index cols 0 ∅ with
  | None => None
  | Some index =>
      let idxes := flagged_sort_keys cols 0 in
      Some {|
        _id := to_int64 (spb_id schema);
        _bf_fpp := match spb_bf_fpp schema with Some f => f | None => 0 end;
        _cols := cols;
        _num_rows_per_row_block := to_uint64 (spb_num_rows_per_row_block schema);
        _next_column_unique_id := to_uint64 (spb_next_column_unique_id schema);
        _num_columns := to_uint32 (Z.of_nat (length cols));
        _num_key_columns := count_key_columns cols;
        _num_short_key_columns := to_uint16 (spb_num_short_key_columns schema);
        _sort_key_idxes := idxes;
        _sort_key_idxes_set := list_to_set idxes;
        _keys_type := to_uint8 (spb_keys_type schema);
        _compression_type := spb_compression_type schema;
        _field_id_to_index := index;
        _has_bf_fpp := match spb_bf_fpp schema with Some _ => true | None => false end;
        _schema_version := to_int32 (spb_schema_version schema);
      |}
  end.

(** Modelled from the spec: the body of [TabletSchema::to_schema_pb] is
    missing.  Every field of the decoded schema descriptor is written
    back, the false-positive rate only when the schema has one. *)
Definition schema_to_schema_pb `{Platform} (s : TabletSchema) : TabletSchemaPB :=
  {| spb_id := _id s;
     spb_column := map column_to_schema_pb (_cols s);
     spb_keys_type := _keys_type s;
     spb_num_short_key_columns := _num_short_key_columns s;
     spb_num_rows_per_row_block := _num_rows_per_row_block s;
     spb_bf_fpp := if _has_bf_fpp s then Some (_bf_fpp s) else None;
     spb_compression_type := _compression_type s;
     spb_next_column_unique_id := _next_column_unique_id s;
     spb_schema_version := _schema_version s |}.

(** Modelled from the spec: the body of [operator==] on [TabletSchema] is
    missing.  Equal "iff their column sequences are equal (via Column
    Descriptor equality) and all schema-level scalar metadata (keys type,
    key/short-key counts, compression policy, bloom-filter setting,
    sort-key list) match; identifiers, interning back-reference, and the
    lazy execution-schema cache are excluded". *)
Definition schema_eqb (a b : TabletSchema) : bool :=
  list_eqb column_eqb (_cols a) (_cols b)
  && (_keys_type a =? _keys_type b)
  && (_num_key_columns a =? _num_key_columns b)
  && (_num_short_key_columns a =? _num_short_key_columns b)
  && (_compression_type a =? _compression_type b)
  && Bool.eqb (_has_bf_fpp a) (_has_bf_fpp b)
  && (_bf_fpp a =? _bf_fpp b)
  && list_eqb Nat.eqb (_sort_key_idxes a) (_sort_key_idxes b).

Definition kNotFound : Z := -1.

(** Modelled from the spec: the body of [TabletSchema::field_index(int32_t)]
    is missing.  It "returns the column's ordinal or a not-found sentinel
    via the unique-id index". *)
Definition field_index (col_unique_id : Z) (s : TabletSchema) : Z :=
  match _field_id_to_index s !! col_unique_id with
  | Some ordinal => ordinal
  | None => kNotFound
  end.

(** Modelled from the spec: part of the missing body of the projecting
    [create].  A sort-key ordinal of the base is "remapped to new
    ordinals": the position at which the selection lists it, if any. *)
Definition new_ordinal (column_indexes : list nat) (k : ColumnId) : option ColumnId :=
  fst <$> list_find (fun i => i = k) column_indexes.

(** "keep only sort-key ordinals whose underlying column survived the
    projection, remapped to new ordinals, in their original relative
    order". *)
Fixpoint remap_sort_keys (column_indexes : list nat) (sort_keys : list ColumnId)
    : list ColumnId :=
  match sort_keys with
  | [] => []
  | k :: rest =>
      match new_ordinal column_indexes k with
      | Some j => j :: remap_sort_keys column_indexes rest
      | None => remap_sort_keys column_indexes rest
      end
  end.

(** Modelled from the spec: the body of
    [TabletSchema::create(tablet_schema, column_indexes)] is missing.
    "Build a new schema containing exactly those columns in the given
    order.  Recompute num_key_columns from the projected columns' key
    flags.  Recompute the sort-key list ...; rebuild the unique-id index
    accordingly."  An ordinal that does not exist in the base "fails that
    specific derivation"; the other metadata is the base's. *)
Definition create (base : TabletSchema) (column_indexes : list nat) : option TabletSchema :=
  match mapM (fun i => _cols base !! i) column_indexes with
  | None => None
  | Some cols =>
      match build_field_id_to_index cols 0 ∅ with
      | None => None
      | Some index =>
          let idxes := remap_sort_keys column_indexes (_sort_key_idxes base) in
          Some {|
            _id := _id base;
            _bf_fpp := _bf_fpp base;
            _cols := cols;
            _num_rows_per_row_block := _num_rows_per_row_block base;
            _next_column_unique_id := _next_column_unique_id base;
            _num_columns := to_uint32 (Z.of_nat (length cols));
            _num_key_columns := count_key_columns cols;
            _num_short_key_columns := _num_short_key_columns base;
            _sort_key_idxes := idxes;
            _sort_key_idxes_set := list_to_set idxes;
            _keys_type := _keys_type base;
            _compression_type := _compression_type base;
            _field_id_to_index := index;
            _has_bf_fpp := _has_bf_fpp base;
            _schema_version := _schema_version base;
          |}
      end
  end.

(** The base ordinal a unique id selects, if the base has that id. *)
Definition ordinal_of_uid (base : TabletSchema) (uid : Z) : option nat :=
  match _field_id_to_index base !! to_int32 uid with
  | Some ordinal => Some (Z.to_nat ordinal)
  | None => None
  end.

(** Modelled from the spec: the body of [TabletSchema::create_with_uid]
    is missing.  "Same as above but selection is by column unique id
    rather than physical ordinal"; an id the base does not have fails the
    derivation. *)
Definition create_with_uid (base : TabletSchema) (unique_column_ids : list Z)
    : option TabletSchema :=
  match mapM (ordinal_of_uid base) unique_column_ids with
  | None => None
  | Some column_indexes => create base column_indexes
  end.

(** ** Concrete descriptors used by the examples *)

(** A plain INT-like column: no default value, no sub-columns. *)
Definition plain_column : TabletColumn :=
  mkTabletColumn "k1" 7 4 0 5 4 0 0 1 None.

(** A column whose extended block holds a default value and nothing else. *)
Definition defaulted_column : TabletColumn :=
  set_default_value (H := libstdcxx_lp64) (mk_std_string "0" 15) plain_column.

(** A column with a default value and two sub-columns. *)
Definition struct_column : TabletColumn :=
  add_sub_column (H := libstdcxx_lp64) plain_column
    (add_sub_column (H := libstdcxx_lp64) defaulted_column defaulted_column).

(** A column that carries the is-sort-key flag (bit 7). *)
Definition flagged_column : TabletColumn :=
  mkTabletColumn "v1" 8 4 0 5 0 0 0 128 None.

(** Two columns, both flagged as sort keys, of which only the first is in
    the sort-key list: the state after appending a flagged column to a
    schema whose list is [0]. *)
Definition schema_with_foreign_flag : TabletSchema :=
  {| _id := 1; _bf_fpp := 0;
     _cols := [set_is_sort_key true plain_column; flagged_column];
     _num_rows_per_row_block := 1024; _next_column_unique_id := 9;
     _num_columns := 2; _num_key_columns := 1; _num_short_key_columns := 1;
     _sort_key_idxes := [0%nat]; _sort_key_idxes_set := {[0%nat]};
     _keys_type := 0; _compression_type := 0;
     _field_id_to_index := <[7 := 0]> (<[8 := 1]> ∅);
     _has_bf_fpp := false; _schema_version := -1 |}.

(** A consistent two-column schema whose only sort key is column 0. *)
Definition two_column_schema : TabletSchema :=
  {| _id := 1; _bf_fpp := 0;
     _cols := [set_is_sort_key true plain_column; mkTabletColumn "v1" 8 4 0 5 0 0 0 2 None];
     _num_rows_per_row_block := 1024; _next_column_unique_id := 9;
     _num_columns := 2; _num_key_columns := 1; _num_short_key_columns := 1;
     _sort_key_idxes := [0%nat]; _sort_key_idxes_set := {[0%nat]};
     _keys_type := 0; _compression_type := 0;
     _field_id_to_index := <[7 := 0]> (<[8 := 1]> ∅);
     _has_bf_fpp := false; _schema_version := -1 |}.

(** ** Further notions for the inline code of the header *)

(** The value range of the [uint8_t] member [_flags]. *)
Definition flag_byte_in_range (c : TabletColumn) : Prop := 0 <= _flags c < 2 ^ 8.

(** The loop of [TabletColumn::mem_usage] as the header writes it,
    [for (int i = 0; i < subcolumn_count(); i++) mem_usage += subcolumn(i).mem_usage()],
    with every access [subcolumn(i)] kept explicit: [i] is the loop
    variable, [n] the number of iterations left, [usage] the recursive
    call on a sub-column. *)
Fixpoint mem_usage_loop (usage : TabletColumn -> Z) (c : TabletColumn) (i n : nat) (acc : Z)
    : access Z :=
  match n with
  | O => Value acc
  | S n' =>
      match subcolumn i c with
      | Value sc => mem_usage_loop usage c (S i) n' (acc + usage sc)
      | NullDereference => NullDereference
      | OutOfRange => OutOfRange
      end
  end.

(** The number of descriptors in a column's tree: itself and, recursively,
    its sub-columns. *)
Fixpoint column_count (c : TabletColumn) : Z :=
  match _extra_fields c with
  | None => 1
  | Some e => fold_left (fun acc sc => acc + column_count sc) (ef_sub_columns e) 1
  end.

(** The characters a column's tree holds: names and default values. *)
Fixpoint column_text_size (c : TabletColumn) : Z :=
  let own := Z.of_nat (String.length (_col_name c)) in
  match _extra_fields c with
  | None => own
  | Some e =>
      fold_left (fun acc sc => acc + column_text_size sc) (ef_sub_columns e)
        (own + Z.of_nat (String.length (str_data (ef_default_value e))))
  end.

(** The guarantee of [std::string], [size() <= capacity()], on every
    default value stored in a column's tree. *)
Fixpoint capacities_cover (c : TabletColumn) : bool :=
  match _extra_fields c with
  | None => true
  | Some e =>
      (Z.of_nat (String.length (str_data (ef_default_value e)))
       <=? str_capacity (ef_default_value e))
      && forallb capacities_cover (ef_sub_columns e)
  end.

From Stdlib Require Import Lia.

(** * Theorems *)

(** ** The flag byte *)

Section flag_byte.

Lemma testbit_to_uint8 (x n : Z) :
  Z.testbit (to_uint8 x) n = (n <? 8) && Z.testbit x n.
Proof. unfold to_uint8. apply Z.testbit_mod_pow2. lia. Qed.

Lemma land_bit_eqb (x pos : Z) :
  0 <= pos -> negb (Z.land x (Z.shiftl 1 pos) =? 0) = Z.testbit x pos.
Proof.
  intros Hpos. rewrite Z.shiftl_1_l.
  destruct (Z.testbit x pos) eqn:Hbit.
  - apply negb_true_iff, Z.eqb_neq. intros Hz.
    assert (Hb : Z.testbit (Z.land x (2 ^ pos)) pos = true).
    { rewrite Z.land_spec, Hbit, Z.pow2_bits_true by lia. reflexivity. }
    rewrite Hz, Z.bits_0 in Hb. discriminate.
  - apply negb_false_iff, Z.eqb_eq, Z.bits_inj'. intros n Hn.
    rewrite Z.land_spec, Z.bits_0, Z.pow2_bits_eqb by lia.
    destruct (Z.eqb_spec pos n) as [->|]; [rewrite Hbit|]; auto using andb_false_r.
Qed.

Lemma check_flag_testbit (pos : Z) (c : TabletColumn) :
  0 <= pos -> _check_flag pos c = Z.testbit (_flags c) pos.
Proof. apply land_bit_eqb. Qed.

Lemma set_flag_testbit (pos n : Z) (v : bool) (c : TabletColumn) :
  0 <= pos -> 0 <= n ->
  Z.testbit (_flags (_set_flag pos v c)) n =
  (n <? 8) && (if n =? pos then v else Z.testbit (_flags c) n).
Proof.
  intros Hpos Hn. unfold _set_flag.
  destruct v; cbn [_flags with_flags]; rewrite testbit_to_uint8; f_equal;
    rewrite Z.shiftl_1_l.
  - rewrite Z.lor_spec, Z.pow2_bits_eqb by lia.
    rewrite (Z.eqb_sym pos n). destruct (n =? pos); auto using orb_true_r, orb_false_r.
  - rewrite Z.land_spec, Z.lnot_spec, Z.pow2_bits_eqb by lia.
    rewrite (Z.eqb_sym pos n). destruct (n =? pos); cbn; auto using andb_true_r, andb_false_r.
Qed.

Lemma check_set_flag (pos pos' : Z) (v : bool) (c : TabletColumn) :
  0 <= pos < 8 -> 0 <= pos' < 8 ->
  _check_flag pos' (_set_flag pos v c) =
  if pos' =? pos then v else _check_flag pos' c.
Proof.
  intros Hpos Hpos'. rewrite !check_flag_testbit, set_flag_testbit by lia.
  replace (pos' <? 8) with true by (symmetry; apply Z.ltb_lt; lia). reflexivity.
Qed.

Lemma set_flag_idempotent (pos : Z) (v : bool) (c : TabletColumn) :
  0 <= pos -> _set_flag pos v (_set_flag pos v c) = _set_flag pos v c.
Proof.
  intros Hpos.
  assert (Hflags : _flags (_set_flag pos v (_set_flag pos v c)) = _flags (_set_flag pos v c)).
  { apply Z.bits_inj'. intros n Hn. rewrite !set_flag_testbit by lia.
    destruct (n <? 8), (n =? pos); reflexivity. }
  destruct c, v; unfold _set_flag, with_flags in *; cbn in *; f_equal; exact Hflags.
Qed.

End flag_byte.

(** C8: each of the eight flag mutations writes its own flag and no other.
    After [set_is_key], [set_is_nullable], [set_is_bf_column],
    [set_has_bitmap_index], [set_is_auto_increment], [set_is_sort_key] with
    any boolean, or after [set_precision] / [set_scale] (which set the
    has-precision / has-scale bit), the accessor of the written flag returns
    the written value and the accessors of the seven other flags return
    what they returned before the call. *)
Theorem flag_mutation_frame (c : TabletColumn) (m : FlagMutation) (g : Flag) :
  flag_accessor g (run_mutation m c) =
  if decide (g = written_flag m) then written_value m else flag_accessor g c.
Proof.
  destruct m, g; cbn [run_mutation written_flag written_value flag_accessor];
    unfold set_precision, set_scale,
      is_key, set_is_key, is_nullable, set_is_nullable, is_auto_increment,
      set_is_auto_increment, is_bf_column, set_is_bf_column, has_bitmap_index,
      set_has_bitmap_index, is_sort_key, set_is_sort_key, has_precision, has_scale;
    (rewrite check_set_flag by (unfold kIsKeyShift, kIsNullableShift, kIsBfColumnShift,
       kHasBitmapIndexShift, kHasPrecisionShift, kHasScaleShift, kHasAutoIncrementShift,
       kIsSortKey; lia));
    reflexivity.
Qed.


(** ** The extended attributes *)

(** C10: [default_value()] returns a string for every column descriptor.
    Without an extended block it is the shared empty string
    [kEmptyDefaultValue], with a block it is the block's string; and
    [has_default_value()] is false exactly when there is no block or the
    block's has-default-value flag is unset. *)
Theorem default_value_total `{Platform} (c : TabletColumn) :
  (exists v, default_value c = v)
  /\ (_extra_fields c = None ->
      default_value c = kEmptyDefaultValue /\ str_data (default_value c) = EmptyString)
  /\ (forall e, _extra_fields c = Some e -> default_value c = ef_default_value e)
  /\ (has_default_value c = false <->
      _extra_fields c = None
      \/ exists e, _extra_fields c = Some e /\ ef_has_default_value e = false).
Proof.
  unfold default_value, has_default_value.
  destruct (_extra_fields c) as [e|]; (split; [eauto|]); repeat split;
    try discriminate; try congruence.
  - intros Hf. right. eauto.
  - intros [Hn | (e' & He' & Hf)]; congruence.
  - intros _. now left.
Qed.

Lemma set_default_value_read `{Platform} (v : std_string) (c : TabletColumn) :
  has_default_value (set_default_value v c) = true
  /\ str_data (default_value (set_default_value v c)) = str_data v
  /\ subcolumn_count (set_default_value v c) = subcolumn_count c.
Proof.
  unfold set_default_value, _get_or_alloc_extra_fields, has_default_value,
    default_value, subcolumn_count.
  destruct (_extra_fields c); cbn; auto.
Qed.

(** C9 (as amended): [subcolumn(i)] is a defined access exactly when
    [i < subcolumn_count()], and then the extended block exists and the
    access returns its [i]-th sub-column.  Outside the precondition a
    column without a block dereferences a null pointer, while a column
    whose block exists (with too few, possibly zero, sub-columns) indexes
    its sequence out of range. *)
Theorem subcolumn_defined_iff (c : TabletColumn) (i : nat) :
  ((exists sc, subcolumn i c = Value sc) <-> (i < subcolumn_count c)%nat)
  /\ ((i < subcolumn_count c)%nat ->
      exists e sc, _extra_fields c = Some e /\ ef_sub_columns e !! i = Some sc
                   /\ subcolumn i c = Value sc)
  /\ (_extra_fields c = None ->
      subcolumn_count c = 0%nat /\ subcolumn i c = NullDereference)
  /\ (forall e, _extra_fields c = Some e -> (subcolumn_count c <= i)%nat ->
      subcolumn i c = OutOfRange).
Proof.
  unfold subcolumn, subcolumn_count.
  destruct (_extra_fields c) as [e|].
  - destruct (ef_sub_columns e !! i) as [sc|] eqn:Hi.
    + pose proof (lookup_lt_Some _ _ _ Hi) as Hlt.
      split; [split; eauto|].
      split; [eauto|].
      split; [discriminate|].
      intros e' _ Hge. lia.
    + pose proof (lookup_ge_None_1 _ _ Hi) as Hge.
      split; [split; [intros [sc Hsc]; discriminate | lia]|].
      split; [lia|].
      split; [discriminate|reflexivity].
  - split; [split; [intros [sc Hsc]; discriminate | cbn; lia]|].
    split; [cbn; lia|].
    split; [auto|discriminate].
Qed.

Lemma subcolumn_defined_iff_witness :
  (1 < subcolumn_count struct_column)%nat
  /\ exists e sc, _extra_fields struct_column = Some e
       /\ ef_sub_columns e !! 1%nat = Some sc
       /\ subcolumn 1 struct_column = Value sc.
Proof.
  assert (Hlt : (1 < subcolumn_count struct_column)%nat) by (vm_compute; lia).
  split; [exact Hlt|].
  exact (proj1 (proj2 (subcolumn_defined_iff struct_column 1)) Hlt).
Defined.

(** C9, the claim as stated fails: [defaulted_column] has
    [subcolumn_count() == 0], yet [subcolumn(0)] does not dereference a
    null pointer; its block exists and the access runs past the end of an
    empty sequence. *)
Lemma subcolumn_count_zero_not_null :
  subcolumn_count defaulted_column = 0%nat
  /\ _extra_fields defaulted_column <> None
  /\ subcolumn 0 defaulted_column = OutOfRange
  /\ subcolumn 0 defaulted_column <> NullDereference.
Proof. repeat split; try reflexivity; discriminate. Qed.

(** ** Memory accounting *)

Lemma fold_left_add_Zsum {A : Type} (f : A -> Z) (l : list A) (a : Z) :
  fold_left (fun acc x => acc + f x) l a = a + Zsum (map f l).
Proof.
  revert a. induction l as [|x l IH]; intros a; cbn [fold_left map].
  - unfold Zsum. cbn. lia.
  - rewrite IH. unfold Zsum. cbn [fold_right]. lia.
Qed.

Lemma column_mem_usage_unfold `{Platform} (c : TabletColumn) :
  column_mem_usage c =
  sizeof_TabletColumn + Z.of_nat (String.length (_col_name c))
  + str_capacity (default_value c) + Zsum (map column_mem_usage (subcolumns c)).
Proof.
  destruct c as [n u l a t il p s f [e|]]; cbn -[fold_left]; unfold subcolumns; cbn -[fold_left].
  - rewrite fold_left_add_Zsum. reflexivity.
  - lia.
Qed.

(** C4 (as amended): a column descriptor without an extended block reports
    no default value and no sub-columns, and its [mem_usage()] is
    [sizeof(TabletColumn)] plus the length of its name plus the capacity of
    the shared empty string [kEmptyDefaultValue]; nothing is charged for
    sub-columns or for a block. *)
Theorem plain_column_mem_usage `{Platform} (c : TabletColumn) :
  _extra_fields c = None ->
  has_default_value c = false
  /\ subcolumn_count c = 0%nat
  /\ column_mem_usage c =
     sizeof_TabletColumn + Z.of_nat (String.length (_col_name c))
     + str_capacity kEmptyDefaultValue
  /\ (str_capacity kEmptyDefaultValue = 0 ->
      column_mem_usage c = sizeof_TabletColumn + Z.of_nat (String.length (_col_name c))).
Proof.
  intros Hnone. rewrite column_mem_usage_unfold.
  unfold has_default_value, subcolumn_count, default_value, subcolumns.
  rewrite Hnone. cbn. repeat split; lia.
Qed.

Lemma plain_column_mem_usage_witness :
  _extra_fields plain_column = None
  /\ column_mem_usage (H := libstdcxx_lp64) plain_column = 40 + 2 + 15.
Proof.
  split; [reflexivity|].
  exact (proj1 (proj2 (proj2
           (plain_column_mem_usage (H := libstdcxx_lp64) plain_column eq_refl)))).
Defined.

(** C4, the claim as stated fails: on libstdc++ the shared empty string
    has capacity 15, so the plain column [k1] is charged 15 bytes more
    than its base size plus name length. *)
Lemma plain_column_mem_usage_exceeds :
  _extra_fields plain_column = None
  /\ has_default_value plain_column = false
  /\ subcolumn_count plain_column = 0%nat
  /\ column_mem_usage (H := libstdcxx_lp64) plain_column
     <> sizeof_TabletColumn (Platform := libstdcxx_lp64)
        + Z.of_nat (String.length (_col_name plain_column)).
Proof. repeat split; try reflexivity. vm_compute. discriminate. Qed.

(** C5: [mem_usage()] of a schema is [sizeof(TabletSchema)] plus the sum of
    the [mem_usage()] of its columns, and the [mem_usage()] of a column is
    its own part (object size, name length, default-value capacity) plus
    the sum of the [mem_usage()] of its sub-columns, recursively. *)
Theorem schema_mem_usage_sum `{Platform} (s : TabletSchema) :
  schema_mem_usage s = sizeof_TabletSchema + Zsum (map column_mem_usage (_cols s))
  /\ forall c : TabletColumn,
       column_mem_usage c =
       sizeof_TabletColumn + Z.of_nat (String.length (_col_name c))
       + str_capacity (default_value c) + Zsum (map column_mem_usage (subcolumns c)).
Proof.
  split.
  - unfold schema_mem_usage. apply fold_left_add_Zsum.
  - apply column_mem_usage_unfold.
Qed.

(** ** Sort-key reassignment *)

Lemma is_sort_key_set (v : bool) (c : TabletColumn) :
  is_sort_key (set_is_sort_key v c) = v.
Proof.
  unfold is_sort_key, set_is_sort_key.
  rewrite check_set_flag by (unfold kIsSortKey; lia). reflexivity.
Qed.

Lemma mark_sort_keys_cons (v : bool) (idx : ColumnId) (rest : list ColumnId)
    (cols : list TabletColumn) :
  mark_sort_keys v (idx :: rest) cols =
  match cols !! idx with
  | None => None
  | Some c => mark_sort_keys v rest (<[idx := set_is_sort_key v c]> cols)
  end.
Proof. reflexivity. Qed.

Lemma mark_sort_keys_spec (v : bool) (idxes : list ColumnId) :
  forall cols : list TabletColumn,
    (forall i, i ∈ idxes -> (i < length cols)%nat) ->
    exists cols',
      mark_sort_keys v idxes cols = Some cols'
      /\ length cols' = length cols
      /\ forall i c, cols !! i = Some c ->
           cols' !! i = Some (if decide (i ∈ idxes) then set_is_sort_key v c else c).
Proof.
  induction idxes as [|idx rest IH]; intros cols Hrange.
  - exists cols. split; [reflexivity|]. split; [reflexivity|].
    intros i c Hi. rewrite decide_False by apply not_elem_of_nil. exact Hi.
  - destruct (lookup_lt_is_Some_2 cols idx) as [c0 Hc0].
    { apply Hrange. left. }
    rewrite mark_sort_keys_cons, Hc0.
    destruct (IH (<[idx := set_is_sort_key v c0]> cols)) as (cols' & Hrun & Hlen & Hget).
    { intros i Hi. rewrite length_insert. apply Hrange. now right. }
    exists cols'. split; [exact Hrun|]. split.
    { rewrite Hlen. apply length_insert. }
    intros i c Hi. destruct (decide (i = idx)) as [->|Hne].
    + assert (c = c0) as -> by congruence.
      rewrite (Hget idx (set_is_sort_key v c0)).
      2:{ apply list_lookup_insert_eq. eapply lookup_lt_Some; eauto. }
      rewrite (decide_True (P := idx ∈ idx :: rest)) by left.
      destruct (decide (idx ∈ rest)); [|reflexivity].
      unfold set_is_sort_key. rewrite set_flag_idempotent by (unfold kIsSortKey; lia).
      reflexivity.
    + rewrite (Hget i c) by (rewrite list_lookup_insert_ne; auto).
      destruct (decide (i ∈ rest)) as [Hin|Hnin].
      * rewrite decide_True by now right. reflexivity.
      * rewrite decide_False; [reflexivity|].
        intros Hin. apply elem_of_cons in Hin as [?|?]; auto.
Qed.

Lemma mark_sort_keys_out_of_range (v : bool) (idxes : list ColumnId) :
  forall cols : list TabletColumn,
    (exists i, i ∈ idxes /\ (length cols <= i)%nat) ->
    mark_sort_keys v idxes cols = None.
Proof.
  induction idxes as [|idx rest IH]; intros cols (i & Hin & Hge).
  - now apply not_elem_of_nil in Hin.
  - rewrite mark_sort_keys_cons. destruct (cols !! idx) as [c0|] eqn:Hc0; [|reflexivity].
    apply IH. exists i. apply elem_of_cons in Hin as [->|Hin].
    + apply lookup_lt_Some in Hc0. lia.
    + rewrite length_insert. auto.
Qed.

(** The set view is not written by [set_sort_key_idxes]. *)
Lemma set_sort_key_idxes_set_view (xs : list ColumnId) (s s' : TabletSchema) :
  set_sort_key_idxes xs s = Some s' ->
  _sort_key_idxes_set s' = _sort_key_idxes_set s.
Proof.
  unfold set_sort_key_idxes.
  destruct (mark_sort_keys false _ _) as [cleared|]; [|discriminate].
  destruct (mark_sort_keys true _ _) as [marked|]; [|discriminate].
  intros [= <-]. reflexivity.
Qed.

(** What [set_sort_key_idxes] leaves in each column: the flag is cleared on
    the old list, then set on the new one, and nothing else is touched. *)
Lemma set_sort_key_idxes_columns (s : TabletSchema) (xs : list ColumnId) :
  (forall i, i ∈ _sort_key_idxes s -> (i < num_columns s)%nat) ->
  (forall i, i ∈ xs -> (i < num_columns s)%nat) ->
  exists s',
    set_sort_key_idxes xs s = Some s'
    /\ sort_key_idxes s' = xs
    /\ num_columns s' = num_columns s
    /\ forall i c, _cols s !! i = Some c ->
         _cols s' !! i = Some
           (if decide (i ∈ xs) then set_is_sort_key true
              (if decide (i ∈ _sort_key_idxes s) then set_is_sort_key false c else c)
            else if decide (i ∈ _sort_key_idxes s) then set_is_sort_key false c else c).
Proof.
  intros Hold Hnew. unfold set_sort_key_idxes, num_columns in *.
  destruct (mark_sort_keys_spec false (_sort_key_idxes s) (_cols s) Hold)
    as (cleared & Hrun1 & Hlen1 & Hget1).
  rewrite Hrun1.
  destruct (mark_sort_keys_spec true xs cleared) as (marked & Hrun2 & Hlen2 & Hget2).
  { intros i Hi. rewrite Hlen1. auto. }
  rewrite Hrun2. eexists. split; [reflexivity|]. cbn.
  split; [reflexivity|]. split; [congruence|].
  intros i c Hi. apply Hget2, Hget1, Hi.
Qed.

(** No stale flag: a column of the old list that is not in the new one
    ends with the flag cleared, whatever the other columns carry. *)
Lemma set_sort_key_idxes_clears_old (s s' : TabletSchema) (xs : list ColumnId) :
  (forall i, i ∈ _sort_key_idxes s -> (i < num_columns s)%nat) ->
  (forall i, i ∈ xs -> (i < num_columns s)%nat) ->
  set_sort_key_idxes xs s = Some s' ->
  forall i c', i ∈ _sort_key_idxes s -> i ∉ xs -> _cols s' !! i = Some c' ->
    is_sort_key c' = false.
Proof.
  intros Hold Hnew Hrun i c' Hin Hnin Hi'.
  destruct (set_sort_key_idxes_columns s xs Hold Hnew) as (s2 & Hrun2 & _ & _ & Hget).
  assert (s2 = s') as -> by congruence.
  destruct (lookup_lt_is_Some_2 (_cols s) i) as [c Hc]; [apply Hold, Hin|].
  rewrite (Hget i c Hc), decide_False, decide_True in Hi' by assumption.
  assert (c' = set_is_sort_key false c) as -> by congruence. apply is_sort_key_set.
Qed.

(** C1 (as amended): let every ordinal of the current sort-key list and of
    the replacement list [xs] be below [num_columns()], and let every
    column that carries the is-sort-key flag before the call be in the
    current list or in [xs].  Then [set_sort_key_idxes(xs)] is defined,
    [sort_key_idxes()] equals [xs], and for every ordinal
    [i < num_columns()] the column [i] has [is_sort_key()] true if and
    only if [i] appears in [xs]; in particular no column of the old list
    that is missing from [xs] keeps the flag. *)
Theorem set_sort_key_idxes_flags (s : TabletSchema) (xs : list ColumnId) :
  (forall i, i ∈ _sort_key_idxes s -> (i < num_columns s)%nat) ->
  (forall i, i ∈ xs -> (i < num_columns s)%nat) ->
  (forall i c, _cols s !! i = Some c -> is_sort_key c = true ->
     i ∈ _sort_key_idxes s \/ i ∈ xs) ->
  exists s',
    set_sort_key_idxes xs s = Some s'
    /\ sort_key_idxes s' = xs
    /\ num_columns s' = num_columns s
    /\ (forall i, (i < num_columns s')%nat ->
          exists c', _cols s' !! i = Some c'
                     /\ (is_sort_key c' = true <-> i ∈ sort_key_idxes s'))
    /\ (forall i c', i ∈ _sort_key_idxes s -> i ∉ xs -> _cols s' !! i = Some c' ->
          is_sort_key c' = false).
Proof.
  intros Hold Hnew Hflag.
  destruct (set_sort_key_idxes_columns s xs Hold Hnew) as (s' & Hrun & Hlist & Hnum & Hget).
  exists s'. split; [exact Hrun|]. split; [exact Hlist|]. split; [exact Hnum|]. split.
  - intros i Hi. rewrite Hnum in Hi. unfold num_columns in Hi.
    destruct (lookup_lt_is_Some_2 (_cols s) i Hi) as [c Hc].
    eexists. split; [apply (Hget i c Hc)|]. rewrite Hlist.
    destruct (decide (i ∈ xs)) as [Hin|Hnin].
    + rewrite is_sort_key_set. tauto.
    + destruct (decide (i ∈ _sort_key_idxes s)) as [Hin'|Hnin'].
      * rewrite is_sort_key_set. split; [discriminate|tauto].
      * split; [|tauto]. intros Hset. exfalso.
        destruct (Hflag i c Hc Hset) as [Hin|Hin]; auto.
  - apply (set_sort_key_idxes_clears_old s s' xs Hold Hnew Hrun).
Qed.

Lemma set_sort_key_idxes_flags_witness :
  exists s',
    set_sort_key_idxes [0%nat; 1%nat] schema_with_foreign_flag = Some s'
    /\ sort_key_idxes s' = [0%nat; 1%nat]
    /\ num_columns s' = num_columns schema_with_foreign_flag
    /\ (forall i, (i < num_columns s')%nat ->
          exists c', _cols s' !! i = Some c'
                     /\ (is_sort_key c' = true <-> i ∈ sort_key_idxes s'))
    /\ (forall i c', i ∈ _sort_key_idxes schema_with_foreign_flag -> i ∉ [0%nat; 1%nat] ->
          _cols s' !! i = Some c' -> is_sort_key c' = false).
Proof.
  apply (set_sort_key_idxes_flags schema_with_foreign_flag [0%nat; 1%nat]).
  - intros i Hi. apply list_elem_of_singleton in Hi as ->. cbn. lia.
  - intros i Hi. rewrite !elem_of_cons, elem_of_nil in Hi.
    destruct Hi as [->|[->|[]]]; cbn; lia.
  - intros i c Hi Hset. destruct i as [|[|i]]; cbn in Hi.
    + left. left.
    + right. right. left.
    + discriminate Hi.
Defined.

(** The third assumption is the exact one: whenever the call is defined
    and leaves every column flagged if and only if its ordinal is in [xs],
    every column flagged before the call was in the old list or in [xs]. *)
Lemma set_sort_key_idxes_flags_condition_needed (s s' : TabletSchema) (xs : list ColumnId) :
  set_sort_key_idxes xs s = Some s' ->
  (forall i c', _cols s' !! i = Some c' -> (is_sort_key c' = true <-> i ∈ xs)) ->
  forall i c, _cols s !! i = Some c -> is_sort_key c = true ->
    i ∈ _sort_key_idxes s \/ i ∈ xs.
Proof.
  intros Hrun Hiff i c Hc Hset.
  destruct (decide (i ∈ _sort_key_idxes s)) as [Hin|Hnin]; [now left|].
  destruct (decide (i ∈ xs)) as [Hin'|Hnin']; [now right|]. exfalso.
  destruct (mark_sort_keys false (_sort_key_idxes s) (_cols s)) as [cleared|] eqn:H1;
    [|unfold set_sort_key_idxes in Hrun; rewrite H1 in Hrun; discriminate].
  assert (Hold : forall k, k ∈ _sort_key_idxes s -> (k < length (_cols s))%nat).
  { intros k Hk. destruct (Nat.lt_ge_cases k (length (_cols s))) as [Hlt|Hge]; [exact Hlt|].
    rewrite (mark_sort_keys_out_of_range false _ (_cols s)) in H1 by eauto. discriminate. }
  destruct (mark_sort_keys_spec false _ _ Hold) as (c1 & Hc1 & Hlen1 & Hget1).
  assert (c1 = cleared) as -> by congruence.
  unfold set_sort_key_idxes in Hrun. rewrite H1 in Hrun.
  destruct (mark_sort_keys true xs cleared) as [marked|] eqn:H2; [|discriminate].
  assert (Hnew : forall k, k ∈ xs -> (k < length cleared)%nat).
  { intros k Hk. destruct (Nat.lt_ge_cases k (length cleared)) as [Hlt|Hge]; [exact Hlt|].
    rewrite (mark_sort_keys_out_of_range true _ cleared) in H2 by eauto. discriminate. }
  destruct (mark_sort_keys_spec true _ _ Hnew) as (c2 & Hc2 & Hlen2 & Hget2).
  assert (c2 = marked) as -> by congruence.
  injection Hrun as <-.
  pose proof (Hget2 i _ (Hget1 i c Hc)) as Hfinal.
  rewrite (decide_False (P := i ∈ xs)), (decide_False (P := i ∈ _sort_key_idxes s))
    in Hfinal by assumption.
  apply Hnin', (Hiff i c Hfinal), Hset.
Qed.

(** C1, the claim as stated fails: in [schema_with_foreign_flag] both lists
    hold only ordinals below [num_columns()], yet after
    [set_sort_key_idxes({0})] column 1 still has [is_sort_key()] true
    although 1 is not in [sort_key_idxes()]. *)
Lemma set_sort_key_idxes_foreign_flag :
  (forall i, i ∈ _sort_key_idxes schema_with_foreign_flag ->
     (i < num_columns schema_with_foreign_flag)%nat)
  /\ (forall i, i ∈ [0%nat] -> (i < num_columns schema_with_foreign_flag)%nat)
  /\ exists s' c',
       set_sort_key_idxes [0%nat] schema_with_foreign_flag = Some s'
       /\ (1 < num_columns s')%nat
       /\ _cols s' !! 1%nat = Some c'
       /\ is_sort_key c' = true
       /\ 1%nat ∉ sort_key_idxes s'.
Proof.
  split; [|split].
  - intros i Hi. apply list_elem_of_singleton in Hi as ->. cbn. lia.
  - intros i Hi. apply list_elem_of_singleton in Hi as ->. cbn. lia.
  - eexists _, _. split; [reflexivity|]. cbn.
    split; [lia|]. split; [reflexivity|]. split; [reflexivity|].
    intros Hin. apply list_elem_of_singleton in Hin. discriminate.
Qed.

(** C3, the code at a failing input: [two_column_schema] has sort-key list
    [0] and set view {0}; after [set_sort_key_idxes({1})] the list is [1]
    while the set view is still {0}, so ordinal 1 is in the list but not in
    the set and ordinal 0 is in the set but not in the list. *)
Lemma set_sort_key_idxes_stale_set_view :
  exists s',
    set_sort_key_idxes [1%nat] two_column_schema = Some s'
    /\ _sort_key_idxes s' = [1%nat]
    /\ _sort_key_idxes_set s' = {[0%nat]}
    /\ (1%nat ∈ _sort_key_idxes s' /\ 1%nat ∉ _sort_key_idxes_set s')
    /\ (0%nat ∈ _sort_key_idxes_set s' /\ 0%nat ∉ _sort_key_idxes s').
Proof.
  eexists. split; [reflexivity|]. cbn.
  split; [reflexivity|]. split; [reflexivity|].
  split; split.
  - left.
  - intros Hin. apply elem_of_singleton in Hin. discriminate.
  - apply elem_of_singleton. reflexivity.
  - intros Hin. apply list_elem_of_singleton in Hin. discriminate.
Qed.

(** ** More on the flag byte *)

Lemma set_flag_with_flags (pos : Z) (v : bool) (c : TabletColumn) :
  _set_flag pos v c = with_flags (_flags (_set_flag pos v c)) c.
Proof. destruct v; reflexivity. Qed.

Lemma with_flags_with_flags (f g : Z) (c : TabletColumn) :
  with_flags f (with_flags g c) = with_flags f c.
Proof. reflexivity. Qed.

Lemma with_flags_same (c : TabletColumn) : with_flags (_flags c) c = c.
Proof. destruct c; reflexivity. Qed.

Lemma set_flag_overwrite (pos : Z) (v w : bool) (c : TabletColumn) :
  0 <= pos -> _set_flag pos v (_set_flag pos w c) = _set_flag pos v c.
Proof.
  intros Hpos.
  rewrite (set_flag_with_flags pos v (_set_flag pos w c)), (set_flag_with_flags pos w c),
    with_flags_with_flags, (set_flag_with_flags pos v c).
  f_equal. apply Z.bits_inj'. intros n Hn.
  rewrite <- (set_flag_with_flags pos w c), !set_flag_testbit by lia.
  destruct (n <? 8), (n =? pos); reflexivity.
Qed.

Lemma set_flag_comm (pos pos' : Z) (v w : bool) (c : TabletColumn) :
  0 <= pos -> 0 <= pos' -> pos <> pos' ->
  _set_flag pos v (_set_flag pos' w c) = _set_flag pos' w (_set_flag pos v c).
Proof.
  intros Hpos Hpos' Hne.
  rewrite (set_flag_with_flags pos v (_set_flag pos' w c)),
    (set_flag_with_flags pos' w (_set_flag pos v c)),
    (set_flag_with_flags pos' w c), (set_flag_with_flags pos v c), !with_flags_with_flags.
  f_equal. apply Z.bits_inj'. intros n Hn.
  rewrite <- (set_flag_with_flags pos' w c), <- (set_flag_with_flags pos v c),
    !set_flag_testbit by lia.
  destruct (n <? 8); [|reflexivity]. cbn.
  destruct (Z.eqb_spec n pos), (Z.eqb_spec n pos'); try reflexivity. lia.
Qed.

Lemma set_flag_noop (pos : Z) (v : bool) (c : TabletColumn) :
  0 <= pos < 8 -> flag_byte_in_range c -> _check_flag pos c = v ->
  _set_flag pos v c = c.
Proof.
  intros Hpos Hrange Hv.
  rewrite set_flag_with_flags. rewrite <- (with_flags_same c) at 3. f_equal.
  apply Z.bits_inj'. intros n Hn. rewrite set_flag_testbit by lia.
  destruct (Z.ltb_spec n 8) as [Hlt|Hge]; cbn.
  - destruct (Z.eqb_spec n pos) as [->|]; [|reflexivity].
    rewrite <- Hv. apply check_flag_testbit. lia.
  - symmetry. unfold flag_byte_in_range in Hrange.
    destruct (Z.eq_dec (_flags c) 0) as [->|Hnz]; [apply Z.bits_0|].
    apply Z.bits_above_log2; [lia|].
    apply Z.log2_lt_pow2; [lia|].
    pose proof (Z.pow_le_mono_r 2 8 n) as Hpow. lia.
Qed.

Lemma set_flag_in_range (pos : Z) (v : bool) (c : TabletColumn) :
  flag_byte_in_range (_set_flag pos v c).
Proof.
  unfold flag_byte_in_range. destruct v; cbn; unfold to_uint8;
    apply Z.mod_pos_bound; lia.
Qed.

Lemma set_flag_with_precision (pos : Z) (v : bool) (p : Z) (c : TabletColumn) :
  _set_flag pos v (with_precision p c) = with_precision p (_set_flag pos v c).
Proof. destruct v; reflexivity. Qed.

Lemma set_flag_with_scale (pos : Z) (v : bool) (s : Z) (c : TabletColumn) :
  _set_flag pos v (with_scale s c) = with_scale s (_set_flag pos v c).
Proof. destruct v; reflexivity. Qed.

Ltac unfold_flag_setters :=
  unfold set_precision, set_scale, set_is_key, set_is_nullable, set_is_auto_increment,
    set_is_bf_column, set_has_bitmap_index, set_is_sort_key;
  unfold kIsKeyShift, kIsNullableShift, kIsBfColumnShift, kHasBitmapIndexShift,
    kHasPrecisionShift, kHasScaleShift, kHasAutoIncrementShift, kIsSortKey.

(** X1: two flag mutations that write different flags commute: the column
    they leave is the same whichever is applied first. *)
Theorem flag_mutations_commute (c : TabletColumn) (m1 m2 : FlagMutation) :
  written_flag m1 <> written_flag m2 ->
  run_mutation m1 (run_mutation m2 c) = run_mutation m2 (run_mutation m1 c).
Proof.
  intros Hne.
  destruct m1, m2; cbn [written_flag] in Hne; try congruence;
    cbn [run_mutation]; unfold_flag_setters;
    rewrite ?set_flag_with_precision, ?set_flag_with_scale;
    rewrite (set_flag_comm _ _ _ _ c) by lia; reflexivity.
Qed.

(** X2: a second write to the same flag wins: applying a flag mutation
    after another mutation of the same flag leaves the column that the
    second mutation alone would leave (for [set_precision] and [set_scale]
    this includes the stored value). *)
Theorem flag_mutation_last_write_wins (c : TabletColumn) (m1 m2 : FlagMutation) :
  written_flag m1 = written_flag m2 ->
  run_mutation m2 (run_mutation m1 c) = run_mutation m2 c.
Proof.
  intros Heq.
  destruct m1, m2; cbn [written_flag] in Heq; try discriminate Heq;
    cbn [run_mutation]; unfold_flag_setters;
    rewrite ?set_flag_with_precision, ?set_flag_with_scale;
    rewrite (set_flag_overwrite _ _ _ c) by lia; reflexivity.
Qed.

Lemma flag_mutation_last_write_wins_witness :
  run_mutation (SetPrecision 9) (run_mutation (SetPrecision 27) plain_column)
  = run_mutation (SetPrecision 9) plain_column.
Proof.
  exact (flag_mutation_last_write_wins plain_column (SetPrecision 27) (SetPrecision 9) eq_refl).
Defined.

Lemma flag_mutations_commute_witness :
  run_mutation (SetIsNullable true) (run_mutation (SetScale 3) plain_column)
  = run_mutation (SetScale 3) (run_mutation (SetIsNullable true) plain_column).
Proof.
  apply (flag_mutations_commute plain_column (SetIsNullable true) (SetScale 3)).
  discriminate.
Defined.

(** X3: a flag mutation touches nothing but the flag byte (and, for
    [set_precision] / [set_scale], the stored precision / scale, truncated
    to eight bits): name, unique id, length, aggregation, type, index
    length and the extended block are those of the column before, and the
    flag byte stays within the range of a [uint8_t]. *)
Theorem flag_mutation_keeps_attributes (c : TabletColumn) (m : FlagMutation) :
  let c' := run_mutation m c in
  _col_name c' = _col_name c
  /\ _unique_id c' = _unique_id c
  /\ _length c' = _length c
  /\ _aggregation c' = _aggregation c
  /\ _type c' = _type c
  /\ _index_length c' = _index_length c
  /\ _extra_fields c' = _extra_fields c
  /\ precision c' = match m with SetPrecision p => p mod 2 ^ 8 | _ => precision c end
  /\ scale c' = match m with SetScale s => s mod 2 ^ 8 | _ => scale c end
  /\ flag_byte_in_range c'.
Proof.
  cbv zeta. repeat split; try apply set_flag_in_range;
    destruct m as [[]|[]|[]|[]|[]|[]|p|s]; try reflexivity;
    cbn [run_mutation]; unfold_flag_setters; apply set_flag_in_range.
Qed.

(** X4: the packing is lossless: two columns whose flag bytes are within
    the [uint8_t] range and whose eight flag accessors agree have the same
    flag byte. *)
Theorem flag_byte_determined_by_accessors (c1 c2 : TabletColumn) :
  flag_byte_in_range c1 -> flag_byte_in_range c2 ->
  (forall g : Flag, flag_accessor g c1 = flag_accessor g c2) ->
  _flags c1 = _flags c2.
Proof.
  intros H1 H2 Hacc. apply Z.bits_inj'. intros n Hn.
  destruct (Z.ltb_spec n 8) as [Hlt|Hge].
  - assert (Hcheck : _check_flag n c1 = _check_flag n c2).
    { assert (Hcases : n = 0 \/ n = 1 \/ n = 2 \/ n = 3 \/ n = 4 \/ n = 5 \/ n = 6 \/ n = 7)
        by lia.
      destruct Hcases as [->|[->|[->|[->|[->|[->|[->| ->]]]]]]].
      - exact (Hacc IsKey).
      - exact (Hacc IsNullable).
      - exact (Hacc IsBfColumn).
      - exact (Hacc HasBitmapIndex).
      - exact (Hacc HasPrecision).
      - exact (Hacc HasScale).
      - exact (Hacc IsAutoIncrement).
      - exact (Hacc IsSortKey). }
    rewrite !check_flag_testbit in Hcheck by lia. exact Hcheck.
  - assert (Hhigh : forall c, flag_byte_in_range c -> Z.testbit (_flags c) n = false).
    { intros c Hc. unfold flag_byte_in_range in Hc.
      destruct (Z.eq_dec (_flags c) 0) as [->|Hnz]; [apply Z.bits_0|].
      apply Z.bits_above_log2; [lia|]. apply Z.log2_lt_pow2; [lia|].
      pose proof (Z.pow_le_mono_r 2 8 n) as Hpow. lia. }
    rewrite !Hhigh by assumption. reflexivity.
Qed.

Lemma flag_byte_determined_by_accessors_witness :
  _flags (set_is_nullable true (set_is_key true flagged_column))
  = _flags (set_is_key true (set_is_nullable true flagged_column)).
Proof.
  apply flag_byte_determined_by_accessors.
  - apply set_flag_in_range.
  - apply set_flag_in_range.
  - intros g. destruct g; reflexivity.
Defined.

(** X5: writing to one of the six boolean flags the value it already has
    is a no-op on a column whose flag byte is within the [uint8_t] range:
    the column is unchanged. *)
Theorem flag_setter_same_value_noop (c : TabletColumn) (m : FlagMutation) :
  flag_byte_in_range c ->
  (forall p, m <> SetPrecision p) -> (forall s, m <> SetScale s) ->
  written_value m = flag_accessor (written_flag m) c ->
  run_mutation m c = c.
Proof.
  intros Hrange Hp Hs Hval.
  destruct m as [v|v|v|v|v|v|p|s];
    try (exfalso; eapply Hp; reflexivity); try (exfalso; eapply Hs; reflexivity);
    cbn [run_mutation written_flag written_value flag_accessor] in *;
    apply set_flag_noop; auto; unfold_flag_setters; lia.
Qed.

Lemma flag_setter_same_value_noop_witness :
  run_mutation (SetIsSortKey true) flagged_column = flagged_column.
Proof.
  apply (flag_setter_same_value_noop flagged_column (SetIsSortKey true)).
  - unfold flag_byte_in_range. cbn. lia.
  - discriminate.
  - discriminate.
  - reflexivity.
Defined.


(** ** More on the extended attributes *)

(** X6: [set_default_value(v)] then read: [has_default_value()] is true and
    [default_value()] holds the characters of [v], with the capacity the
    move assignment into the previous default value leaves; the
    sub-columns are untouched (same count, every defined [subcolumn(i)]
    returns the same descriptor), the block now exists so that no
    [subcolumn(i)] dereferences a null pointer, and the flags and scalar
    attributes are those of the column before. *)
Theorem set_default_value_then_read `{Platform} (v : std_string) (c : TabletColumn) :
  let c' := set_default_value v c in
  has_default_value c' = true
  /\ str_data (default_value c') = str_data v
  /\ str_capacity (default_value c')
     = string_move_capacity (str_capacity (default_value c)) (str_capacity v)
         (String.length (str_data v))
  /\ subcolumn_count c' = subcolumn_count c
  /\ (forall i sc, subcolumn i c = Value sc -> subcolumn i c' = Value sc)
  /\ (forall i, subcolumn i c' <> NullDereference)
  /\ (forall g, flag_accessor g c' = flag_accessor g c)
  /\ (_col_name c' = _col_name c /\ _unique_id c' = _unique_id c /\ _length c' = _length c
      /\ _aggregation c' = _aggregation c /\ _type c' = _type c
      /\ _index_length c' = _index_length c /\ _precision c' = _precision c
      /\ _scale c' = _scale c).
Proof.
  cbv zeta.
  unfold set_default_value, _get_or_alloc_extra_fields, has_default_value,
    default_value, subcolumn_count, subcolumn.
  destruct c as [n u l a t il p s f [e|]]; cbn.
  - repeat split; try (intros g; destruct g; reflexivity).
    + intros i sc Hsc. exact Hsc.
    + intros i. destruct (ef_sub_columns e !! i); discriminate.
  - repeat split; try (intros g; destruct g; reflexivity).
    + intros i sc Hsc. discriminate Hsc.
    + intros i. rewrite lookup_nil. discriminate.
Qed.

(** X7: a second [set_default_value] replaces the first as far as content
    goes: [set_default_value(v2)] after [set_default_value(v1)] and
    [set_default_value(v2)] alone leave descriptors with the same scalar
    attributes and flags and with blocks that hold the characters of [v2],
    the has-default-value flag and the same sub-columns.  Only the
    capacity of the stored string may differ, since the move assignment
    may keep the buffer of the first value. *)
Theorem set_default_value_last_wins `{Platform} (v1 v2 : std_string) (c : TabletColumn) :
  let twice := set_default_value v2 (set_default_value v1 c) in
  let once := set_default_value v2 c in
  with_extra_fields None twice = with_extra_fields None once
  /\ exists e2 e1,
       _extra_fields twice = Some e2 /\ _extra_fields once = Some e1
       /\ str_data (ef_default_value e2) = str_data v2
       /\ str_data (ef_default_value e1) = str_data v2
       /\ ef_has_default_value e2 = true /\ ef_has_default_value e1 = true
       /\ ef_sub_columns e2 = ef_sub_columns e1
       /\ str_capacity (ef_default_value e2)
          = string_move_capacity
              (string_move_capacity (str_capacity (default_value c)) (str_capacity v1)
                 (String.length (str_data v1)))
              (str_capacity v2) (String.length (str_data v2))
       /\ str_capacity (ef_default_value e1)
          = string_move_capacity (str_capacity (default_value c)) (str_capacity v2)
              (String.length (str_data v2)).
Proof.
  cbv zeta. unfold set_default_value, _get_or_alloc_extra_fields, default_value.
  destruct c as [n u l a t il p s f [e|]]; cbn;
    (split; [reflexivity|]); eexists _, _; repeat split.
Qed.

(** X8: [set_default_value(v)] changes [mem_usage()] only through the
    capacity of the default value: the new [mem_usage()] is the old one
    minus the capacity of the previous [default_value()] (the shared empty
    string when no block existed) plus the capacity the move assignment
    leaves; sub-columns, name and object size contribute as before. *)
Theorem set_default_value_mem_usage `{Platform} (v : std_string) (c : TabletColumn) :
  column_mem_usage (set_default_value v c)
  = column_mem_usage c - str_capacity (default_value c)
    + string_move_capacity (str_capacity (default_value c)) (str_capacity v)
        (String.length (str_data v)).
Proof.
  rewrite !column_mem_usage_unfold.
  unfold set_default_value, _get_or_alloc_extra_fields, default_value, subcolumns.
  destruct c as [n u l a t il p s f [e|]]; cbn; lia.
Qed.

(** On libstdc++ a short value moved over a long one keeps the long
    one's buffer: after a default value of capacity 100, writing ["0"]
    leaves capacity 100 and the same [mem_usage()]. *)
Lemma set_default_value_keeps_heap_buffer :
  let long := {| str_data := "xxxxxxxxxxxxxxxxxxxx"; str_capacity := 100 |} in
  let c := set_default_value (H := libstdcxx_lp64) long plain_column in
  let c' := set_default_value (H := libstdcxx_lp64) (mk_std_string "0" 15) c in
  str_capacity (default_value (H := libstdcxx_lp64) c) = 100
  /\ str_data (default_value (H := libstdcxx_lp64) c') = "0"%string
  /\ str_capacity (default_value (H := libstdcxx_lp64) c') = 100
  /\ column_mem_usage (H := libstdcxx_lp64) c = 142
  /\ column_mem_usage (H := libstdcxx_lp64) c' = 142.
Proof. cbv zeta. repeat split. Qed.

(** ** More on memory accounting *)

Lemma mem_usage_loop_suffix (usage : TabletColumn -> Z) (c : TabletColumn)
    (e : ExtraFields) :
  _extra_fields c = Some e ->
  forall (rest : list TabletColumn) (i : nat) (acc : Z),
    drop i (ef_sub_columns e) = rest ->
    mem_usage_loop usage c i (length rest) acc
    = Value (fold_left (fun a sc => a + usage sc) rest acc).
Proof.
  intros He rest. induction rest as [|sc rest IH]; intros i acc Hdrop; [reflexivity|].
  cbn [mem_usage_loop length fold_left]. unfold subcolumn. rewrite He.
  assert (Hi : ef_sub_columns e !! i = Some sc).
  { rewrite <- (Nat.add_0_r i), <- lookup_drop, Hdrop. reflexivity. }
  rewrite Hi. apply IH. rewrite (drop_S _ _ _ Hi) in Hdrop. congruence.
Qed.

(** X9: the loop of [mem_usage] is safe on every column: run over
    [i = 0 .. subcolumn_count() - 1] with the unchecked [subcolumn(i)], it
    never dereferences a null pointer and never indexes out of range, and
    it ends with the value of [mem_usage()]. *)
Theorem mem_usage_loop_defined `{Platform} (c : TabletColumn) :
  mem_usage_loop column_mem_usage c 0 (subcolumn_count c)
    (sizeof_TabletColumn + Z.of_nat (String.length (_col_name c))
     + str_capacity (default_value c))
  = Value (column_mem_usage c).
Proof.
  destruct (_extra_fields c) as [e|] eqn:He.
  - unfold subcolumn_count. rewrite He.
    rewrite (mem_usage_loop_suffix column_mem_usage c e He (ef_sub_columns e) 0)
      by apply drop_0.
    f_equal. destruct c as [n u l a t il p s f ex]. cbn in He. subst ex. reflexivity.
  - unfold subcolumn_count. rewrite He. cbn [mem_usage_loop].
    f_equal. destruct c as [n u l a t il p s f ex]. cbn in He. subst ex. reflexivity.
Qed.

Lemma TabletColumn_nested_ind (P : TabletColumn -> Prop) :
  (forall c, Forall P (subcolumns c) -> P c) -> forall c, P c.
Proof.
  intros Hstep. fix IH 1. intros c. apply Hstep.
  destruct c as [n u l a t il p s f [[dv subs hd]|]]; unfold subcolumns; cbn.
  - induction subs as [|sc subs IHsubs]; constructor; [apply IH | exact IHsubs].
  - constructor.
Qed.

Lemma column_count_unfold (c : TabletColumn) :
  column_count c = 1 + Zsum (map column_count (subcolumns c)).
Proof.
  destruct c as [n u l a t il p s f [e|]]; unfold subcolumns; cbn -[fold_left].
  - apply fold_left_add_Zsum.
  - reflexivity.
Qed.

Lemma column_text_size_unfold (c : TabletColumn) :
  column_text_size c
  = Z.of_nat (String.length (_col_name c))
    + match _extra_fields c with
      | Some e => Z.of_nat (String.length (str_data (ef_default_value e)))
      | None => 0
      end
    + Zsum (map column_text_size (subcolumns c)).
Proof.
  destruct c as [n u l a t il p s f [e|]]; unfold subcolumns; cbn -[fold_left].
  - apply fold_left_add_Zsum.
  - unfold Zsum. cbn. lia.
Qed.

Lemma capacities_cover_unfold (c : TabletColumn) :
  capacities_cover c
  = match _extra_fields c with
    | None => true
    | Some e =>
        (Z.of_nat (String.length (str_data (ef_default_value e)))
         <=? str_capacity (ef_default_value e))
        && forallb capacities_cover (ef_sub_columns e)
    end.
Proof. destruct c as [n u l a t il p s f [e|]]; reflexivity. Qed.

(** X10: a lower bound on what [mem_usage()] adds up.  When every stored
    default value obeys [size() <= capacity()] and the empty string has a
    capacity of at least 0, the [mem_usage()] of a column is at least
    [sizeof(TabletColumn)] for each descriptor of its tree plus the
    characters of all names and default values in the tree.  (The
    function has no term for the [ExtraFields] block itself, so this is
    not a bound on the memory the column really holds.) *)
Theorem column_mem_usage_lower_bound `{Platform} (c : TabletColumn) :
  0 <= string_capacity 0 ->
  capacities_cover c = true ->
  sizeof_TabletColumn * column_count c + column_text_size c <= column_mem_usage c.
Proof.
  intros Hempty. induction c as [c IH] using TabletColumn_nested_ind. intros Hcover.
  rewrite column_mem_usage_unfold, column_count_unfold, column_text_size_unfold.
  rewrite capacities_cover_unfold in Hcover.
  assert (Hsubs : forallb capacities_cover (subcolumns c) = true ->
            sizeof_TabletColumn * Zsum (map column_count (subcolumns c))
            + Zsum (map column_text_size (subcolumns c))
            <= Zsum (map column_mem_usage (subcolumns c))).
  { induction IH as [|sc subs Hsc _ IHsubs]; intros Hall; unfold Zsum in *; cbn in *.
    - lia.
    - apply andb_prop in Hall as [H1 H2]. specialize (Hsc H1). specialize (IHsubs H2). lia. }
  unfold default_value, subcolumns in *.
  destruct (_extra_fields c) as [e|].
  - apply andb_prop in Hcover as [Hcap Hall]. apply Z.leb_le in Hcap.
    specialize (Hsubs Hall). lia.
  - specialize (Hsubs eq_refl). unfold kEmptyDefaultValue, make_std_string. cbn in *. lia.
Qed.

Lemma column_mem_usage_lower_bound_witness :
  40 * 3 + (2 + 2 + 1 + 2 + 1) <= column_mem_usage (H := libstdcxx_lp64) struct_column.
Proof.
  apply (column_mem_usage_lower_bound (H := libstdcxx_lp64) struct_column).
  - cbn. lia.
  - reflexivity.
Defined.


(** ** More on sort-key reassignment *)

Lemma mark_sort_keys_Some_range (v : bool) (idxes : list ColumnId) :
  forall cols cols' : list TabletColumn,
    mark_sort_keys v idxes cols = Some cols' ->
    forall i, i ∈ idxes -> (i < length cols)%nat.
Proof.
  intros cols cols' Hrun i Hin.
  destruct (Nat.lt_ge_cases i (length cols)) as [Hlt|Hge]; [exact Hlt|].
  rewrite (mark_sort_keys_out_of_range v idxes cols) in Hrun by eauto. discriminate.
Qed.

Lemma set_sort_key_idxes_Some_range (s s' : TabletSchema) (xs : list ColumnId) :
  set_sort_key_idxes xs s = Some s' ->
  (forall i, i ∈ _sort_key_idxes s -> (i < num_columns s)%nat)
  /\ (forall i, i ∈ xs -> (i < num_columns s)%nat).
Proof.
  unfold set_sort_key_idxes, num_columns.
  destruct (mark_sort_keys false _ _) as [cleared|] eqn:H1; [|discriminate].
  destruct (mark_sort_keys true _ _) as [marked|] eqn:H2; [|discriminate].
  intros _. split.
  - eapply mark_sort_keys_Some_range, H1.
  - intros i Hi. pose proof (mark_sort_keys_Some_range _ _ _ _ H2 i Hi) as Hlt.
    destruct (mark_sort_keys_spec false (_sort_key_idxes s) (_cols s)) as (c2 & Hc2 & Hlen & _).
    { eapply mark_sort_keys_Some_range, H1. }
    assert (c2 = cleared) as -> by congruence. lia.
Qed.

(** What a successful call leaves, read off the result. *)
Lemma set_sort_key_idxes_Some_inv (s s' : TabletSchema) (xs : list ColumnId) :
  set_sort_key_idxes xs s = Some s' ->
  s' = with_cols_and_sort_keys (_cols s') xs s
  /\ length (_cols s') = length (_cols s)
  /\ forall i c, _cols s !! i = Some c ->
       _cols s' !! i = Some
         (if decide (i ∈ xs) then set_is_sort_key true
            (if decide (i ∈ _sort_key_idxes s) then set_is_sort_key false c else c)
          else if decide (i ∈ _sort_key_idxes s) then set_is_sort_key false c else c).
Proof.
  intros Hrun. destruct (set_sort_key_idxes_Some_range s s' xs Hrun) as [Hold Hnew].
  destruct (set_sort_key_idxes_columns s xs Hold Hnew) as (s2 & Hrun2 & _ & Hnum & Hget).
  assert (s2 = s') as -> by congruence.
  split; [|split; [exact Hnum | exact Hget]].
  unfold set_sort_key_idxes in Hrun.
  destruct (mark_sort_keys false _ _) as [cleared|]; [|discriminate].
  destruct (mark_sort_keys true _ _) as [marked|]; [|discriminate].
  injection Hrun as <-. reflexivity.
Qed.

Lemma set_sort_key_idxes_out_of_range (s : TabletSchema) (xs : list ColumnId) (i : nat) :
  i ∈ _sort_key_idxes s \/ i ∈ xs -> (num_columns s <= i)%nat ->
  set_sort_key_idxes xs s = None.
Proof.
  intros Hin Hge.
  destruct (set_sort_key_idxes xs s) as [s'|] eqn:Hrun; [|reflexivity].
  destruct (set_sort_key_idxes_Some_range s s' xs Hrun) as [Hold Hnew].
  destruct Hin as [Hin|Hin]; [apply Hold in Hin | apply Hnew in Hin]; lia.
Qed.

(** X11: [set_sort_key_idxes(xs)] stays within defined behaviour exactly when
    every ordinal of the current sort-key list and of [xs] is below
    [num_columns()]; one ordinal outside the column vector, in either
    list, makes the unchecked [_cols[idx]] an out-of-bounds access. *)
Theorem set_sort_key_idxes_defined_iff (s : TabletSchema) (xs : list ColumnId) :
  is_Some (set_sort_key_idxes xs s) <->
  (forall i, i ∈ _sort_key_idxes s -> (i < num_columns s)%nat)
  /\ (forall i, i ∈ xs -> (i < num_columns s)%nat).
Proof.
  split.
  - intros [s' Hrun]. exact (set_sort_key_idxes_Some_range s s' xs Hrun).
  - intros [Hold Hnew].
    destruct (set_sort_key_idxes_columns s xs Hold Hnew) as (s' & Hrun & _). eauto.
Qed.

Lemma column_mem_usage_set_flag `{Platform} (pos : Z) (v : bool) (c : TabletColumn) :
  column_mem_usage (_set_flag pos v c) = column_mem_usage c.
Proof. destruct c, v; reflexivity. Qed.

(** X12: [set_sort_key_idxes] changes nothing but the sort-key list and the
    is-sort-key bits.  After a defined call the other members of the
    schema are the same (the set view and the unique-id index included),
    the number of columns is the same, every column keeps its seven other
    flags, its scalar attributes and its extended block, and the schema's
    [mem_usage()] is unchanged. *)
Theorem set_sort_key_idxes_frame `{Platform} (s s' : TabletSchema) (xs : list ColumnId) :
  set_sort_key_idxes xs s = Some s' ->
  (_id s' = _id s /\ _bf_fpp s' = _bf_fpp s
   /\ _num_rows_per_row_block s' = _num_rows_per_row_block s
   /\ _next_column_unique_id s' = _next_column_unique_id s
   /\ _num_columns s' = _num_columns s /\ _num_key_columns s' = _num_key_columns s
   /\ _num_short_key_columns s' = _num_short_key_columns s
   /\ _sort_key_idxes_set s' = _sort_key_idxes_set s
   /\ _keys_type s' = _keys_type s /\ _compression_type s' = _compression_type s
   /\ _field_id_to_index s' = _field_id_to_index s
   /\ _has_bf_fpp s' = _has_bf_fpp s /\ _schema_version s' = _schema_version s)
  /\ num_columns s' = num_columns s
  /\ (forall i c', _cols s' !! i = Some c' ->
        exists c, _cols s !! i = Some c
          /\ (forall g, g <> IsSortKey -> flag_accessor g c' = flag_accessor g c)
          /\ _col_name c' = _col_name c /\ _unique_id c' = _unique_id c
          /\ _length c' = _length c /\ _aggregation c' = _aggregation c
          /\ _type c' = _type c /\ _index_length c' = _index_length c
          /\ _precision c' = _precision c /\ _scale c' = _scale c
          /\ _extra_fields c' = _extra_fields c
          /\ column_mem_usage c' = column_mem_usage c)
  /\ schema_mem_usage s' = schema_mem_usage s.
Proof.
  intros Hrun. destruct (set_sort_key_idxes_Some_inv s s' xs Hrun) as (Hs' & Hlen & Hget).
  assert (Hcol : forall i c', _cols s' !! i = Some c' ->
            exists c, _cols s !! i = Some c
              /\ (forall g, g <> IsSortKey -> flag_accessor g c' = flag_accessor g c)
              /\ _col_name c' = _col_name c /\ _unique_id c' = _unique_id c
              /\ _length c' = _length c /\ _aggregation c' = _aggregation c
              /\ _type c' = _type c /\ _index_length c' = _index_length c
              /\ _precision c' = _precision c /\ _scale c' = _scale c
              /\ _extra_fields c' = _extra_fields c
              /\ column_mem_usage c' = column_mem_usage c).
  { intros i c' Hi'.
    destruct (lookup_lt_is_Some_2 (_cols s) i) as [c Hc].
    { rewrite <- Hlen. eapply lookup_lt_Some, Hi'. }
    exists c. split; [exact Hc|].
    rewrite (Hget i c Hc) in Hi'.
    match type of Hi' with Some ?x = Some _ => assert (c' = x) as -> by congruence end.
    clear Hi'.
    assert (Hone : forall v x,
              (forall g, g <> IsSortKey ->
                 flag_accessor g (set_is_sort_key v x) = flag_accessor g x)
              /\ _col_name (set_is_sort_key v x) = _col_name x
              /\ _unique_id (set_is_sort_key v x) = _unique_id x
              /\ _length (set_is_sort_key v x) = _length x
              /\ _aggregation (set_is_sort_key v x) = _aggregation x
              /\ _type (set_is_sort_key v x) = _type x
              /\ _index_length (set_is_sort_key v x) = _index_length x
              /\ _precision (set_is_sort_key v x) = _precision x
              /\ _scale (set_is_sort_key v x) = _scale x
              /\ _extra_fields (set_is_sort_key v x) = _extra_fields x
              /\ column_mem_usage (set_is_sort_key v x) = column_mem_usage x).
    { intros v x. split.
      - intros g Hg. destruct g; try congruence;
          unfold flag_accessor, is_key, is_nullable, is_bf_column, has_bitmap_index,
            has_precision, has_scale, is_auto_increment, set_is_sort_key;
          rewrite check_set_flag
            by (unfold kIsKeyShift, kIsNullableShift, kIsBfColumnShift, kHasBitmapIndexShift,
                  kHasPrecisionShift, kHasScaleShift, kHasAutoIncrementShift, kIsSortKey; lia);
          reflexivity.
      - repeat split; try (destruct v; reflexivity). apply column_mem_usage_set_flag. }
    destruct (decide (i ∈ xs)), (decide (i ∈ _sort_key_idxes s)).
    - destruct (Hone true (set_is_sort_key false c))
        as (Hf1 & ? & ? & ? & ? & ? & ? & ? & ? & ? & ?).
      destruct (Hone false c) as (Hf2 & ? & ? & ? & ? & ? & ? & ? & ? & ? & ?).
      split; [intros g Hg; rewrite Hf1, Hf2 by exact Hg; reflexivity|].
      repeat split; congruence.
    - apply Hone.
    - apply Hone.
    - repeat split. }
  split; [rewrite Hs'; cbn; repeat split|].
  split; [exact Hlen|]. split; [exact Hcol|].
  unfold schema_mem_usage. rewrite !fold_left_add_Zsum. f_equal. f_equal.
  apply list_eq. intros i.
  change (map column_mem_usage) with (fmap (M := list) column_mem_usage).
  rewrite !list_lookup_fmap.
  destruct (_cols s' !! i) as [c'|] eqn:Hi'.
  - destruct (Hcol i c' Hi') as (c & Hc & Hrest). rewrite Hc. cbn. f_equal.
    apply Hrest.
  - apply lookup_ge_None in Hi'. rewrite Hlen in Hi'.
    apply lookup_ge_None in Hi'. rewrite Hi'. reflexivity.
Qed.

Lemma set_sort_key_idxes_frame_witness :
  exists s',
    set_sort_key_idxes [1%nat] two_column_schema = Some s'
    /\ schema_mem_usage (H := libstdcxx_lp64) s'
       = schema_mem_usage (H := libstdcxx_lp64) two_column_schema.
Proof.
  destruct (set_sort_key_idxes [1%nat] two_column_schema) as [s'|] eqn:Hrun.
  - exists s'. split; [reflexivity|].
    apply (set_sort_key_idxes_frame (H := libstdcxx_lp64) two_column_schema s' [1%nat] Hrun).
  - discriminate Hrun.
Defined.


Lemma with_cols_and_sort_keys_same (s : TabletSchema) :
  with_cols_and_sort_keys (_cols s) (_sort_key_idxes s) s = s.
Proof. destruct s; reflexivity. Qed.

Lemma clear_then_set_sort_key (c : TabletColumn) :
  flag_byte_in_range c -> is_sort_key c = true ->
  set_is_sort_key true (set_is_sort_key false c) = c.
Proof.
  intros Hrange Hset. unfold set_is_sort_key.
  rewrite set_flag_overwrite by (unfold kIsSortKey; lia).
  apply set_flag_noop; [unfold kIsSortKey; lia | exact Hrange | exact Hset].
Qed.

(** X13: re-installing the current sort-key list is the identity.  When
    every ordinal of [sort_key_idxes()] names a column that has
    [is_sort_key()] set (and a flag byte within the [uint8_t] range),
    [set_sort_key_idxes(sort_key_idxes())] returns the schema unchanged:
    each flag is cleared and then set again. *)
Theorem set_sort_key_idxes_same_list (s : TabletSchema) :
  (forall i, i ∈ _sort_key_idxes s ->
     exists c, _cols s !! i = Some c /\ is_sort_key c = true /\ flag_byte_in_range c) ->
  set_sort_key_idxes (sort_key_idxes s) s = Some s.
Proof.
  intros Hlisted. unfold sort_key_idxes.
  assert (Hrange : forall i, i ∈ _sort_key_idxes s -> (i < num_columns s)%nat).
  { intros i Hi. destruct (Hlisted i Hi) as (c & Hc & _).
    eapply lookup_lt_Some, Hc. }
  destruct (set_sort_key_idxes_columns s (_sort_key_idxes s) Hrange Hrange)
    as (s' & Hrun & _ & _ & _).
  rewrite Hrun. f_equal.
  destruct (set_sort_key_idxes_Some_inv s s' _ Hrun) as (Hs' & Hlen & Hget).
  assert (Hcols : _cols s' = _cols s).
  { apply list_eq. intros i. destruct (_cols s !! i) as [c|] eqn:Hc.
    - rewrite (Hget i c Hc). f_equal.
      destruct (decide (i ∈ _sort_key_idxes s)) as [Hin|Hnin]; [|reflexivity].
      destruct (Hlisted i Hin) as (c0 & Hc0 & Hset & Hbyte).
      assert (c0 = c) as -> by congruence.
      apply clear_then_set_sort_key; assumption.
    - apply lookup_ge_None. rewrite Hlen. apply lookup_ge_None, Hc. }
  rewrite Hs', Hcols. apply with_cols_and_sort_keys_same.
Qed.

Lemma set_sort_key_idxes_same_list_witness :
  set_sort_key_idxes (sort_key_idxes two_column_schema) two_column_schema
  = Some two_column_schema.
Proof.
  apply set_sort_key_idxes_same_list.
  intros i Hi. apply list_elem_of_singleton in Hi as ->.
  eexists. split; [reflexivity|]. split; [reflexivity|].
  unfold flag_byte_in_range. vm_compute. split; [discriminate|reflexivity].
Defined.

(** X14: the last reassignment wins.  On a schema whose flag bytes are
    within the [uint8_t] range and in which no column outside the
    sort-key list carries the flag, [set_sort_key_idxes(ys)] after a
    defined [set_sort_key_idxes(xs)] gives what [set_sort_key_idxes(ys)]
    gives on the original schema (undefined in both cases when [ys] holds
    an ordinal outside the columns). *)
Theorem set_sort_key_idxes_last_wins (s s1 : TabletSchema) (xs ys : list ColumnId) :
  (forall i c, _cols s !! i = Some c -> flag_byte_in_range c) ->
  (forall i c, _cols s !! i = Some c -> is_sort_key c = true -> i ∈ _sort_key_idxes s) ->
  set_sort_key_idxes xs s = Some s1 ->
  set_sort_key_idxes ys s1 = set_sort_key_idxes ys s.
Proof.
  intros Hbyte Hflag Hrun1.
  destruct (set_sort_key_idxes_Some_range s s1 xs Hrun1) as [Hold Hxs].
  destruct (set_sort_key_idxes_Some_inv s s1 xs Hrun1) as (Hs1 & Hlen1 & Hget1).
  assert (Hlist1 : _sort_key_idxes s1 = xs) by (rewrite Hs1; reflexivity).
  assert (Hnum1 : num_columns s1 = num_columns s) by exact Hlen1.
  destruct (decide (Forall (fun i => (i < num_columns s)%nat) ys)) as [Hys|Hys].
  - rewrite Forall_forall in Hys.
    destruct (set_sort_key_idxes_columns s ys Hold Hys) as (s3 & Hrun3 & _ & _ & _).
    destruct (set_sort_key_idxes_columns s1 ys) as (s2 & Hrun2 & _ & _ & _).
    { rewrite Hlist1, Hnum1. exact Hxs. }
    { rewrite Hnum1. exact Hys. }
    rewrite Hrun2, Hrun3. f_equal.
    destruct (set_sort_key_idxes_Some_inv s s3 ys Hrun3) as (Hs3 & Hlen3 & Hget3).
    destruct (set_sort_key_idxes_Some_inv s1 s2 ys Hrun2) as (Hs2 & Hlen2 & Hget2).
    assert (Hcols : _cols s2 = _cols s3).
    { apply list_eq. intros i. destruct (_cols s !! i) as [c|] eqn:Hc.
      - rewrite (Hget3 i c Hc), (Hget2 i _ (Hget1 i c Hc)), Hlist1. f_equal.
        assert (Hinner :
          (if decide (i ∈ xs)
           then set_is_sort_key false
                  (if decide (i ∈ xs)
                   then set_is_sort_key true
                          (if decide (i ∈ _sort_key_idxes s)
                           then set_is_sort_key false c else c)
                   else if decide (i ∈ _sort_key_idxes s)
                        then set_is_sort_key false c else c)
           else if decide (i ∈ xs)
                then set_is_sort_key true
                       (if decide (i ∈ _sort_key_idxes s)
                        then set_is_sort_key false c else c)
                else if decide (i ∈ _sort_key_idxes s)
                     then set_is_sort_key false c else c)
          = if decide (i ∈ _sort_key_idxes s) then set_is_sort_key false c else c).
        { destruct (decide (i ∈ xs)) as [Hin|Hnin]; [|reflexivity].
          unfold set_is_sort_key.
          rewrite set_flag_overwrite by (unfold kIsSortKey; lia).
          destruct (decide (i ∈ _sort_key_idxes s)) as [Hin'|Hnin'].
          - apply set_flag_overwrite. unfold kIsSortKey. lia.
          - apply set_flag_noop; [unfold kIsSortKey; lia | eapply Hbyte, Hc |].
            destruct (_check_flag kIsSortKey c) eqn:Hset; [|reflexivity].
            exfalso. apply Hnin'. eapply Hflag; [exact Hc | exact Hset]. }
        rewrite Hinner. reflexivity.
      - assert (Hnone : forall l : list TabletColumn,
                  length l = length (_cols s) -> l !! i = None).
        { intros l Hl. apply lookup_ge_None. rewrite Hl. apply lookup_ge_None, Hc. }
        rewrite !Hnone by congruence. reflexivity. }
    rewrite Hs2, Hs3, Hcols, Hs1. reflexivity.
  - apply not_Forall_Exists in Hys; [|intros i; apply _].
    apply Exists_exists in Hys as (i & Hin & Hge).
    unfold compose in Hge. cbn beta in Hge. assert (Hout : (num_columns s <= i)%nat) by lia.
    rewrite (set_sort_key_idxes_out_of_range s ys i (or_intror Hin) Hout).
    apply (set_sort_key_idxes_out_of_range s1 ys i (or_intror Hin)).
    rewrite Hnum1. exact Hout.
Qed.

Lemma set_sort_key_idxes_last_wins_witness :
  exists s1,
    set_sort_key_idxes [1%nat; 0%nat] two_column_schema = Some s1
    /\ set_sort_key_idxes [1%nat] s1 = set_sort_key_idxes [1%nat] two_column_schema.
Proof.
  destruct (set_sort_key_idxes [1%nat; 0%nat] two_column_schema) as [s1|] eqn:Hrun.
  - exists s1. split; [reflexivity|].
    apply (set_sort_key_idxes_last_wins two_column_schema s1 [1%nat; 0%nat] [1%nat]);
      [| |exact Hrun].
    + intros i c Hc. destruct i as [|[|i]]; cbn in Hc; try discriminate Hc;
        injection Hc as <-; unfold flag_byte_in_range; vm_compute;
        (split; [discriminate|reflexivity]).
    + intros i c Hc Hset. destruct i as [|[|i]]; cbn in Hc; try discriminate Hc.
      * left.
      * injection Hc as <-. discriminate Hset.
  - discriminate Hrun.
Defined.

(** X15: the flags left by [set_sort_key_idxes(xs)] depend only on which
    ordinals occur in [xs], not on their order or repetition: a list with
    the same members leaves the same columns.  The list itself is stored
    as given, repetitions included. *)
Theorem set_sort_key_idxes_members_only (s s1 : TabletSchema) (xs ys : list ColumnId) :
  (forall i, i ∈ xs <-> i ∈ ys) ->
  set_sort_key_idxes xs s = Some s1 ->
  sort_key_idxes s1 = xs
  /\ exists s2, set_sort_key_idxes ys s = Some s2
                /\ _cols s2 = _cols s1 /\ sort_key_idxes s2 = ys.
Proof.
  intros Hsame Hrun1.
  destruct (set_sort_key_idxes_Some_range s s1 xs Hrun1) as [Hold Hxs].
  destruct (set_sort_key_idxes_Some_inv s s1 xs Hrun1) as (Hs1 & Hlen1 & Hget1).
  split; [rewrite Hs1; reflexivity|].
  destruct (set_sort_key_idxes_columns s ys Hold) as (s2 & Hrun2 & Hlist2 & _ & _).
  { intros i Hi. apply Hxs, Hsame, Hi. }
  destruct (set_sort_key_idxes_Some_inv s s2 ys Hrun2) as (Hs2 & Hlen2 & Hget2).
  exists s2. split; [exact Hrun2|]. split; [|exact Hlist2].
  apply list_eq. intros i. destruct (_cols s !! i) as [c|] eqn:Hc.
  - rewrite (Hget1 i c Hc), (Hget2 i c Hc).
    destruct (decide (i ∈ xs)) as [Hx|Hx], (decide (i ∈ ys)) as [Hy|Hy];
      try reflexivity; exfalso; [apply Hy, Hsame, Hx | apply Hx, Hsame, Hy].
  - assert (Hnone : forall l : list TabletColumn,
              length l = length (_cols s) -> l !! i = None).
    { intros l Hl. apply lookup_ge_None. rewrite Hl. apply lookup_ge_None, Hc. }
    rewrite !Hnone by congruence. reflexivity.
Qed.

Lemma set_sort_key_idxes_members_only_witness :
  exists s1,
    set_sort_key_idxes [1%nat; 0%nat] two_column_schema = Some s1
    /\ sort_key_idxes s1 = [1%nat; 0%nat]
    /\ exists s2, set_sort_key_idxes [0%nat; 1%nat; 1%nat] two_column_schema = Some s2
                  /\ _cols s2 = _cols s1 /\ sort_key_idxes s2 = [0%nat; 1%nat; 1%nat].
Proof.
  destruct (set_sort_key_idxes [1%nat; 0%nat] two_column_schema) as [s1|] eqn:Hrun.
  - exists s1. split; [reflexivity|].
    apply (set_sort_key_idxes_members_only two_column_schema s1 _ _); [|exact Hrun].
    intros i. rewrite !elem_of_cons, !elem_of_nil. tauto.
  - discriminate Hrun.
Defined.
